(** * ray_lightning.ray_ddp: the Ray DDP plugin, embedded in Rocq

    A shallow embedding of [src/ray_lightning/ray_ddp.py]: the remote
    executor actor ([RayExecutor]), the rank resolution of
    [RayPlugin.get_local_ranks], the rendezvous of
    [RayPlugin._setup_env_vars], the execution loop, the remote entry
    point [execute_remote], the teardown [post_dispatch] and the pickling
    hooks [__getstate__] / [__setstate__].

    Python dictionaries are finite maps ([gmap]), Python lists are lists
    read and written by index, exceptions are an explicit result type, and
    the driver code that talks to actors runs in a state-and-exception
    monad over the driver process and the actors of the cluster. *)

From stdpp Require Import base option list gmap strings pretty.

Open Scope string_scope.

(** ** Exceptions *)

(** The Python exceptions that the embedded code can raise. An exception
    raised inside an actor task reaches the driver as [RayTaskError]; a
    call to an actor that is dead or unknown resolves to [RayActorError]. *)
Inductive PyExn : Type :=
  | IndexError
  | KeyError
  | TypeError
  | AttributeError
  | AssertionError
  | RuntimeError
  | RayActorError
  | RayTaskError (cause : PyExn).

Inductive result (A : Type) : Type :=
  | Ok (a : A)
  | Raise (e : PyExn).
Arguments Ok {A} a.
Arguments Raise {A} e.

Definition is_Ok {A} (r : result A) : Prop :=
  match r with Ok _ => True | Raise _ => False end.

Definition is_Raise {A} (r : result A) : Prop :=
  match r with Ok _ => False | Raise _ => True end.

Global Instance result_ret : MRet result := λ A a, Ok a.

Global Instance result_bind : MBind result := λ A B k r,
  match r with
  | Ok a => k a
  | Raise e => Raise e
  end.

Global Instance result_fmap : FMap result := λ A B f r,
  match r with
  | Ok a => Ok (f a)
  | Raise e => Raise e
  end.

(** Python's [l[i]] on a list. *)
Definition getitem {A} (l : list A) (i : nat) : result A :=
  match l !! i with
  | Some x => Ok x
  | None => Raise IndexError
  end.

(** ** Rank resolution: the body of [RayPlugin.get_local_ranks] *)

Module RankResolver.

(** [for i in range(len(node_ips)): node_ip_map[node_ips[i]] = i],
    started at index [i] on the remaining suffix of [node_ips]. *)
Fixpoint fill_node_ip_map (i : nat) (node_ips : list string)
    (node_ip_map : gmap string nat) : gmap string nat :=
  match node_ips with
  | [] => node_ip_map
  | ip :: rest => fill_node_ip_map (S i) rest (<[ip := i]> node_ip_map)
  end.

(** [rank_counter_dict[ip]] on a [defaultdict(int)]. *)
Definition counter_get (rank_counter_dict : gmap string nat) (ip : string) : nat :=
  default 0 (rank_counter_dict !! ip).

(** One entry of the result: [None] until the loop has written it. *)
Abbreviation RankPair := (option (nat * nat)).

(** One iteration of [for global_rank in range(self.num_workers)]. *)
Definition rank_step (node_ips : list string) (node_ip_map : gmap string nat)
    (st : gmap string nat * list RankPair) (global_rank : nat)
    : result (gmap string nat * list RankPair) :=
  let '(rank_counter_dict, global_to_local) := st in
  ip ← getitem node_ips global_rank;
  match node_ip_map !! ip with
  | None => Raise KeyError
  | Some node =>
      let local := counter_get rank_counter_dict ip in
      Ok (<[ip := S local]> rank_counter_dict,
          <[global_rank := Some (local, node)]> global_to_local)
  end.

Fixpoint rank_loop (node_ips : list string) (node_ip_map : gmap string nat)
    (ranks : list nat) (st : gmap string nat * list RankPair)
    : result (gmap string nat * list RankPair) :=
  match ranks with
  | [] => Ok st
  | global_rank :: rest =>
      st' ← rank_step node_ips node_ip_map st global_rank;
      rank_loop node_ips node_ip_map rest st'
  end.

(** [get_local_ranks], from the line after [node_ips] has been fetched:
    [node_ips] is the fetched list and [num_workers] is
    [self.num_workers]. *)
Definition get_local_ranks (node_ips : list string) (num_workers : nat)
    : result (list RankPair) :=
  let node_ip_map := fill_node_ip_map 0 node_ips ∅ in
  let rank_counter_dict : gmap string nat := ∅ in
  let global_to_local : list RankPair := replicate num_workers None in
  st ← rank_loop node_ips node_ip_map (seq 0 num_workers)
                 (rank_counter_dict, global_to_local);
  Ok st.2.

(** The local and the node ranks read off a resolved assignment. *)
Definition local_ranks (g : list RankPair) : list (option nat) :=
  (λ p : RankPair, fst <$> p) <$> g.

Definition node_ranks (g : list RankPair) : list (option nat) :=
  (λ p : RankPair, snd <$> p) <$> g.

(** How many of the first [r] workers sit on node [ip]. *)
Definition earlier_on_node (node_ips : list string) (ip : string) (r : nat) : nat :=
  length (filter (λ x, x = ip) (take r node_ips)).

(** The node ranks as the specification words them: a dense zero-based
    index over the distinct addresses, numbered in first-seen order.
    [seen] lists the distinct addresses met so far. *)
Fixpoint index_of (ip : string) (seen : list string) : option nat :=
  match seen with
  | [] => None
  | x :: rest => if decide (x = ip) then Some 0 else S <$> index_of ip rest
  end.

Fixpoint first_seen_ranks (seen node_ips : list string) : list nat :=
  match node_ips with
  | [] => []
  | ip :: rest =>
      match index_of ip seen with
      | Some i => i :: first_seen_ranks seen rest
      | None => length seen :: first_seen_ranks (seen ++ [ip]) rest
      end
  end.

Definition spec_node_ranks (node_ips : list string) : list (option nat) :=
  Some <$> first_seen_ranks [] node_ips.

End RankResolver.

(** ** Pickling hooks: [__getstate__] and [__setstate__] *)

Module Pickle.

(** The values an attribute dictionary holds. A worker handle is the
    identity of a live actor; any other object is kept by identity. *)
#[warnings="-register-all"] Inductive PyVal : Type :=
  | PyNone
  | PyBool (b : bool)
  | PyInt (n : Z)
  | PyStr (s : string)
  | PyHandle (actor : nat)
  | PyObject (id : nat)
  | PyList (items : list PyVal).

(** The attributes that [RayPlugin.__init__] itself assigns on the driver,
    before the superclass constructor runs. *)
Definition __init__ (num_workers num_cpus_per_worker : Z) (use_gpu : bool)
    (init_hook : PyVal) : gmap string PyVal :=
  <["_node_rank" := PyInt 0]> (
  <["_global_rank" := PyInt 0]> (
  <["_local_rank" := PyInt 0]> (
  <["init_hook" := init_hook]> (
  <["workers" := PyList []]> (
  <["use_gpu" := PyBool use_gpu]> (
  <["num_cpus_per_worker" := PyInt num_cpus_per_worker]> (
  <["num_workers" := PyInt num_workers]> (
  <["nickname" := PyStr "ddp_ray"]> (
  <["_is_remote" := PyBool false]> ∅))))))))).

(** [d = self.__dict__.copy(); del d["workers"]; return d]. *)
Definition __getstate__ (self__dict__ : gmap string PyVal)
    : result (gmap string PyVal) :=
  let d := self__dict__ in
  match d !! "workers" with
  | None => Raise KeyError
  | Some _ => Ok (delete "workers" d)
  end.

(** [d["workers"] = []; self.__dict__.update(d)]: the entries of [d]
    overwrite those of the object. *)
Definition __setstate__ (self__dict__ d : gmap string PyVal)
    : gmap string PyVal :=
  let d := <["workers" := PyList []]> d in
  d ∪ self__dict__.

(** What unpickling a pickled plugin yields: [__setstate__] runs on a new
    object, whose attribute dictionary is empty. *)
Definition roundtrip (p : gmap string PyVal) : result (gmap string PyVal) :=
  d ← __getstate__ p;
  Ok (__setstate__ ∅ d).

End Pickle.

(** ** Processes *)

(** What the embedded code observes of an operating-system process: its
    environment, the address [ray.util.get_node_ip_address()] reports in
    it, and the port its host hands out to [bind(("", 0))]. *)
Record Process : Type := {
  environ : gmap string string;
  node_ip_address : string;
  ephemeral_port : N;
}.

Definition set_environ (e : gmap string string) (p : Process) : Process :=
  {| environ := e;
     node_ip_address := node_ip_address p;
     ephemeral_port := ephemeral_port p |}.

(** [find_free_port], run in process [p]: the socket is bound to port 0
    and closed again, so the process is left as it was. *)
Definition find_free_port (p : Process) : N := ephemeral_port p.

(** [os.getenv(k)] and [os.environ[k] = v]. *)
Definition getenv (k : string) (p : Process) : option string := environ p !! k.

Definition putenv (k v : string) (p : Process) : Process :=
  set_environ (<[k := v]> (environ p)) p.

(** The four variables propagated at rendezvous. *)
Definition rendezvous_keys : list string :=
  ["PL_GLOBAL_SEED"; "PL_TORCH_DISTRIBUTED_BACKEND"; "MASTER_ADDR"; "MASTER_PORT"].

(** The driver process and the environment values after the rendezvous
    with the worker process [p0]. *)
Definition rendezvous_driver (p0 d : Process) : Process :=
  putenv "MASTER_PORT" (pretty (find_free_port p0))
    (putenv "MASTER_ADDR" (node_ip_address p0) d).

Definition rendezvous_values (p0 d : Process) : list (option string) :=
  (λ k, getenv k (rendezvous_driver p0 d)) <$> rendezvous_keys.

(** ** The collaborators the plugin treats as opaque *)

(** The state codec of [ray_lightning.util] ([to_state_stream] and
    [load_state_stream]) and the tensor conversions applied to the metrics
    are not part of this module: they are taken as parameters, together
    with the types of the values they carry. *)
Class Collaborators : Type := {
  Results : Type;
  StateDict : Type;
  StateStream : Type;
  Tensor : Type;
  NdArray : Type;
  to_state_stream : StateDict → StateStream;
  load_state_stream : StateStream → bool → StateDict;
  to_numpy : Tensor → NdArray;
  to_tensor : NdArray → Tensor;
}.

Section Plugin.
Context `{Collaborators}.

(** *** The Lightning objects the plugin reaches into *)

(** [trainer.checkpoint_callback] when there is one. *)
Record CheckpointCallback : Type := {
  best_model_path : option string;
}.

Record Trainer : Type := {
  checkpoint_callback : option CheckpointCallback;
  callback_metrics : gmap string Tensor;
}.

Record LightningModule : Type := {
  state_dict : StateDict;
  trainer : Trainer;
}.

Definition load_state_dict (sd : StateDict) (m : LightningModule) : LightningModule :=
  {| state_dict := sd; trainer := trainer m |}.

Definition set_trainer (t : Trainer) (m : LightningModule) : LightningModule :=
  {| state_dict := state_dict m; trainer := t |}.

Definition set_best_model_path (path : option string) (t : Trainer) : Trainer :=
  {| checkpoint_callback :=
       match checkpoint_callback t with
       | Some _ => Some {| best_model_path := path |}
       | None => None
       end;
     callback_metrics := callback_metrics t |}.

(** [trainer.callback_metrics.update(metrics)]. *)
Definition update_callback_metrics (metrics : gmap string Tensor) (t : Trainer) : Trainer :=
  {| checkpoint_callback := checkpoint_callback t;
     callback_metrics := metrics ∪ callback_metrics t |}.

(** The filled result a worker returns:
    [results, best_model_path, model_state_stream, callback_metrics]. *)
Definition Envelope : Type :=
  (Results * option string * StateStream * gmap string NdArray)%type.

(** The progress queue handed to the workers when Tune is attached. *)
Inductive Queue : Type := TuneQueue.

(** *** The actor *)

(** A [RayExecutor] actor: its process, whether it still runs, whether
    its process has joined the [torch.distributed] process group, and the
    opaque stage that [trainer.run_stage()] runs in it, which returns the
    results and leaves the trained module behind. *)
Record RayExecutor : Type := {
  process : Process;
  alive : bool;
  process_group : bool;
  run_stage : LightningModule → result (Results * LightningModule);
}.

Definition set_process (p : Process) (a : RayExecutor) : RayExecutor :=
  {| process := p; alive := alive a; process_group := process_group a;
     run_stage := run_stage a |}.

Definition set_alive (b : bool) (a : RayExecutor) : RayExecutor :=
  {| process := process a; alive := b; process_group := process_group a;
     run_stage := run_stage a |}.

Definition set_process_group (b : bool) (a : RayExecutor) : RayExecutor :=
  {| process := process a; alive := alive a; process_group := b;
     run_stage := run_stage a |}.

(** An actor method: it runs inside the actor, may change it, and returns
    or raises. *)
Definition Method (A : Type) : Type := RayExecutor → RayExecutor * result A.

(** [RayExecutor.set_env_var]: a [None] value is skipped. *)
Definition set_env_var (key : string) (value : option string)
    (a : RayExecutor) : RayExecutor :=
  match value with
  | Some value => set_process (putenv key value (process a)) a
  | None => a
  end.

(** The loop [for key, value in zip(keys, values): self.set_env_var(...)]. *)
Fixpoint set_env_var_each (kvs : list (string * option string))
    (a : RayExecutor) : RayExecutor :=
  match kvs with
  | [] => a
  | (key, value) :: rest => set_env_var_each rest (set_env_var key value a)
  end.

(** [RayExecutor.set_env_vars]. *)
Definition set_env_vars (keys : list string) (values : list (option string))
    : Method unit :=
  λ a,
    if decide (length keys = length values)
    then (set_env_var_each (zip keys values) a, Ok tt)
    else (a, Raise AssertionError).

(** [RayExecutor.get_node_ip]. *)
Definition get_node_ip : Method string :=
  λ a, (a, Ok (node_ip_address (process a))).

(** [RayExecutor.execute]: calls [fn] inside the actor. *)
Definition execute {A} (fn : Method A) : Method A := fn.

(** *** The plugin object *)

(** The attributes of a [RayPlugin] that the embedded methods read or
    write. [workers] holds actor handles: indices into the [actors] of the
    [World] below. [global_to_local] is absent until the execution loop
    assigns it. *)
Record RayPlugin : Type := {
  _is_remote : bool;
  num_workers : nat;
  num_cpus_per_worker : nat;
  use_gpu : bool;
  workers : list nat;
  _local_rank : nat;
  _global_rank : nat;
  _node_rank : nat;
  global_to_local : option (list RankResolver.RankPair);
  _model : option LightningModule;
  _results : option Results;
}.

Definition set__is_remote (b : bool) (p : RayPlugin) : RayPlugin :=
  {| _is_remote := b; num_workers := num_workers p;
     num_cpus_per_worker := num_cpus_per_worker p; use_gpu := use_gpu p;
     workers := workers p; _local_rank := _local_rank p;
     _global_rank := _global_rank p; _node_rank := _node_rank p;
     global_to_local := global_to_local p; _model := _model p;
     _results := _results p |}.

Definition set_workers (ws : list nat) (p : RayPlugin) : RayPlugin :=
  {| _is_remote := _is_remote p; num_workers := num_workers p;
     num_cpus_per_worker := num_cpus_per_worker p; use_gpu := use_gpu p;
     workers := ws; _local_rank := _local_rank p;
     _global_rank := _global_rank p; _node_rank := _node_rank p;
     global_to_local := global_to_local p; _model := _model p;
     _results := _results p |}.

Definition set__global_rank (r : nat) (p : RayPlugin) : RayPlugin :=
  {| _is_remote := _is_remote p; num_workers := num_workers p;
     num_cpus_per_worker := num_cpus_per_worker p; use_gpu := use_gpu p;
     workers := workers p; _local_rank := _local_rank p;
     _global_rank := r; _node_rank := _node_rank p;
     global_to_local := global_to_local p; _model := _model p;
     _results := _results p |}.

Definition set_local_node_rank (l n : nat) (p : RayPlugin) : RayPlugin :=
  {| _is_remote := _is_remote p; num_workers := num_workers p;
     num_cpus_per_worker := num_cpus_per_worker p; use_gpu := use_gpu p;
     workers := workers p; _local_rank := l;
     _global_rank := _global_rank p; _node_rank := n;
     global_to_local := global_to_local p; _model := _model p;
     _results := _results p |}.

Definition set_global_to_local (g : option (list RankResolver.RankPair))
    (p : RayPlugin) : RayPlugin :=
  {| _is_remote := _is_remote p; num_workers := num_workers p;
     num_cpus_per_worker := num_cpus_per_worker p; use_gpu := use_gpu p;
     workers := workers p; _local_rank := _local_rank p;
     _global_rank := _global_rank p; _node_rank := _node_rank p;
     global_to_local := g; _model := _model p;
     _results := _results p |}.

Definition set__model (m : option LightningModule) (p : RayPlugin) : RayPlugin :=
  {| _is_remote := _is_remote p; num_workers := num_workers p;
     num_cpus_per_worker := num_cpus_per_worker p; use_gpu := use_gpu p;
     workers := workers p; _local_rank := _local_rank p;
     _global_rank := _global_rank p; _node_rank := _node_rank p;
     global_to_local := global_to_local p; _model := m;
     _results := _results p |}.

Definition set__results (r : option Results) (p : RayPlugin) : RayPlugin :=
  {| _is_remote := _is_remote p; num_workers := num_workers p;
     num_cpus_per_worker := num_cpus_per_worker p; use_gpu := use_gpu p;
     workers := workers p; _local_rank := _local_rank p;
     _global_rank := _global_rank p; _node_rank := _node_rank p;
     global_to_local := global_to_local p; _model := _model p;
     _results := r |}.

(** The properties [global_rank], [local_rank], [node_rank] and
    [world_size]. *)
Definition global_rank (p : RayPlugin) : nat := _global_rank p.
Definition local_rank (p : RayPlugin) : nat := _local_rank p.
Definition node_rank (p : RayPlugin) : nat := _node_rank p.
Definition world_size (p : RayPlugin) : nat := num_workers p.

(** The copy of the plugin that reaches a worker with the pickled bound
    method: it went through [__getstate__] and [__setstate__], so it
    carries no worker handles. *)
Definition unpickled (p : RayPlugin) : RayPlugin := set_workers [] p.

(** *** Methods that run inside a worker *)

(** [RayPlugin.set_world_ranks]. *)
Definition set_world_ranks (process_idx : nat) (me : RayPlugin) : result RayPlugin :=
  if _is_remote me then
    let me := set__global_rank process_idx me in
    g ← match global_to_local me with
        | Some g => Ok g
        | None => Raise AttributeError
        end;
    pair ← getitem g (global_rank me);
    match pair with
    | Some (l, n) => Ok (set_local_node_rank l n me)
    | None => Raise TypeError
    end
  else Ok me.

(** The effect of [RayPlugin._worker_setup] on the actor: the process
    joins the process group unless it already has. *)
Definition init_dist_connection (a : RayExecutor) : RayExecutor :=
  if process_group a then a else set_process_group true a.

(** [RayPlugin.execute_remote], the function every worker runs. The model
    keeps its return value and the worker's joining of the process group.
    What the calls into Lightning do to the worker's process is not
    modelled: re-seeding (which may write to the environment), preparing
    the data, registering with the queue, moving the model to its device,
    wrapping it for DDP, the barrier, the stage itself and the teardown
    hook. *)
Definition execute_remote (me : RayPlugin) (model : option LightningModule)
    (global_rank_arg : nat) (queue : option Queue) : Method (option Envelope) :=
  λ a,
    let me := set__model model me in
    match model with
    | None => (a, Raise AttributeError)
    | Some module =>
        let me := set__is_remote true me in
        match set_world_ranks global_rank_arg me with
        | Raise e => (a, Raise e)
        | Ok me =>
            let a := init_dist_connection a in
            match run_stage a module with
            | Raise e => (a, Raise e)
            | Ok (results, module) =>
                let return_val :=
                  if decide (global_rank me = 0) then
                    let best_model_path :=
                      match checkpoint_callback (trainer module) with
                      | Some cb => best_model_path cb
                      | None => None
                      end in
                    let model_state_stream := to_state_stream (state_dict module) in
                    let metrics := to_numpy <$> callback_metrics (trainer module) in
                    Some (results, best_model_path, model_state_stream, metrics)
                  else None in
                (a, Ok return_val)
            end
        end
    end.

(** The closure [shutdown_remote] of [post_dispatch]:
    [torch.distributed.destroy_process_group()] asserts that the process
    has a process group. *)
Definition shutdown_remote : Method unit :=
  λ a,
    if process_group a then (set_process_group false a, Ok tt)
    else (a, Raise AssertionError).

(** *** The driver *)

(** The driver's view of the cluster: its own plugin object and process,
    the actors created so far, and whether a Tune session is attached
    ([TUNE_INSTALLED and is_session_enabled()]). *)
Record World : Type := {
  self : RayPlugin;
  driver : Process;
  actors : list RayExecutor;
  tune_session : bool;
}.

Definition set_self (p : RayPlugin) (w : World) : World :=
  {| self := p; driver := driver w; actors := actors w;
     tune_session := tune_session w |}.

Definition set_driver (d : Process) (w : World) : World :=
  {| self := self w; driver := d; actors := actors w;
     tune_session := tune_session w |}.

Definition set_actors (acts : list RayExecutor) (w : World) : World :=
  {| self := self w; driver := driver w; actors := acts;
     tune_session := tune_session w |}.

(** Driver code: it changes the world and returns or raises; the changes
    made before an exception stay. *)
Definition M (A : Type) : Type := World → World * result A.

Global Instance M_ret : MRet M := λ A a w, (w, Ok a).

Global Instance M_bind : MBind M := λ A B k m w,
  match m w with
  | (w', Ok a) => k a w'
  | (w', Raise e) => (w', Raise e)
  end.

Definition lift {A} (r : result A) : M A := λ w, (w, r).

Definition get_self : M RayPlugin := λ w, (w, Ok (self w)).

Definition modify_self (f : RayPlugin → RayPlugin) : M unit :=
  λ w, (set_self (f (self w)) w, Ok tt).

Definition os_getenv (k : string) : M (option string) :=
  λ w, (w, Ok (getenv k (driver w))).

Definition os_putenv (k v : string) : M unit :=
  λ w, (set_driver (putenv k v (driver w)) w, Ok tt).

(** A future, once resolved: the value, or the failure [ray.get] raises. *)
Definition Future (A : Type) : Type := result A.

(** [handle.method.remote(...)]: the call runs in the actor and resolves
    its future; a failure inside the actor is wrapped, a dead or unknown
    actor resolves the future to [RayActorError]. *)
Definition remote {A} (handle : nat) (method : Method A) : M (Future A) :=
  λ w,
    match actors w !! handle with
    | Some a =>
        if alive a then
          let '(a', r) := method a in
          (set_actors (<[handle := a']> (actors w)) w,
           Ok (match r with
               | Ok v => Ok v
               | Raise e => Raise (RayTaskError e)
               end))
        else (w, Ok (Raise RayActorError))
    | None => (w, Ok (Raise RayActorError))
    end.

(** [ray.get] on one future and on a list of futures: the first failure
    in list order is raised. *)
Definition ray_get {A} (f : Future A) : M A := lift f.

Fixpoint resolve_all {A} (fs : list (Future A)) : result (list A) :=
  match fs with
  | [] => Ok []
  | f :: rest => v ← f; vs ← resolve_all rest; Ok (v :: vs)
  end.

Definition ray_get_all {A} (fs : list (Future A)) : M (list A) :=
  lift (resolve_all fs).

(** [ray.kill(w, no_restart=True)]. *)
Definition ray_kill (handle : nat) : M unit :=
  λ w, (set_actors (alter (set_alive false) handle (actors w)) w, Ok tt).

(** A list comprehension or [for] loop whose body is driver code. *)
Fixpoint for_each {A B} (body : A → M B) (l : list A) : M (list B) :=
  match l with
  | [] => mret []
  | x :: rest => y ← body x; ys ← for_each body rest; mret (y :: ys)
  end.

(** *** Methods that run on the driver *)

(** [RayPlugin._setup_env_vars]. *)
Definition _setup_env_vars : M unit :=
  me ← get_self;
  w0 ← lift (getitem (workers me) 0);
  future ← remote w0 get_node_ip;
  addr ← ray_get future;
  os_putenv "MASTER_ADDR" addr;;
  w0 ← lift (getitem (workers me) 0);
  future ← remote w0 (execute (λ a, (a, Ok (find_free_port (process a)))));
  port ← ray_get future;
  os_putenv "MASTER_PORT" (pretty port);;
  let keys := rendezvous_keys in
  values ← for_each os_getenv keys;
  futures ← for_each (λ w, remote w (set_env_vars keys values)) (workers me);
  ray_get_all futures;;
  mret tt.

(** [RayPlugin.get_local_ranks]: fetch every worker's node address, then
    resolve the ranks. *)
Definition get_local_ranks : M (list RankResolver.RankPair) :=
  me ← get_self;
  futures ← for_each (λ w, remote w get_node_ip) (workers me);
  node_ips ← ray_get_all futures;
  lift (RankResolver.get_local_ranks node_ips (num_workers me)).

(** Modelled from the spec: [ray_lightning.util.process_results] is not
    in this module. The coordinator drains the progress channel until
    every worker's future has resolved and then holds the workers'
    results, the one of worker 0 at index 0; a failed future surfaces to
    the caller. *)
Definition process_results {A} (futures : list (Future A)) (queue : option Queue)
    : M (list A) :=
  ray_get_all futures.

(** Unpacking [results[0]] into four names: [None] cannot be unpacked. *)
Definition unpack (r : option Envelope) : result Envelope :=
  match r with
  | Some e => Ok e
  | None => Raise TypeError
  end.

(** [RayPlugin.execution_loop], in the two parts its comments mark. The
    first part runs the rendezvous, resolves the ranks, dispatches
    [execute_remote] to every worker and awaits the results. *)
Definition dispatch (tune_enabled : bool)
    : M (option LightningModule * option Queue * list (option Envelope)) :=
  _setup_env_vars;;
  g ← get_local_ranks;
  modify_self (set_global_to_local (Some g));;
  me ← get_self;
  let model := _model me in
  let model_ref := model in
  modify_self (set__model None);;
  queue ← (λ w, (w, Ok (if tune_enabled && tune_session w
                         then Some TuneQueue else None)));
  me ← get_self;
  futures ← for_each (λ i,
      w ← lift (getitem (workers me) i);
      remote w (execute (execute_remote (unpickled me) model_ref i queue)))
    (seq 0 (num_workers me));
  results ← process_results futures queue;
  mret (model, queue, results).

(** The second part, between the markers
    [__recover_child_process_weights begin] and [end]: it unpacks
    [results[0]] and restores the driver's state from it. *)
Definition recover_child_process_weights (model : option LightningModule)
    (results : list (option Envelope)) : M unit :=
  first ← lift (getitem results 0);
  '(results, best_path, state_stream, callback_metrics) ← lift (unpack first);
  me ← get_self;
  let state_dict := load_state_stream state_stream (use_gpu me) in
  modify_self (set__results (Some results));;
  modify_self (set__model model);;
  match model with
  | None => lift (Raise AttributeError)
  | Some module =>
      let module := load_state_dict state_dict module in
      let t := trainer module in
      let t := match checkpoint_callback t with
               | Some _ => set_best_model_path best_path t
               | None => t
               end in
      let t := update_callback_metrics (to_tensor <$> callback_metrics) t in
      modify_self (set__model (Some (set_trainer t module)))
  end.

(** The function has no [return] statement: its value is Python's
    [None]. (Shutting the queue down leaves the world as it is.) *)
Definition execution_loop (tune_enabled : bool) : M (option Results) :=
  '(model, queue, results) ← dispatch tune_enabled;
  recover_child_process_weights model results;;
  mret None.

(** [start_training], [start_evaluating] and [start_predicting] hand on
    what the execution loop returned. (The trainer's optimizers, which
    [start_training] resets, are not part of the model.) *)
Definition start_training : M (option Results) :=
  results ← execution_loop true;
  mret results.

Definition start_evaluating : M (option Results) :=
  results ← execution_loop false;
  mret results.

Definition start_predicting : M (option Results) :=
  results ← execution_loop false;
  mret results.

(** [RayPlugin.post_dispatch]. *)
Definition post_dispatch : M unit :=
  me ← get_self;
  futures ← for_each (λ w, remote w (execute shutdown_remote)) (workers me);
  ray_get_all futures;;
  for_each ray_kill (workers me);;
  modify_self (set_workers []).

(** *** Notions used to state the properties *)

(** A handle is reachable when it names an actor that still runs. *)
Definition reachable (w : World) (handle : nat) : bool :=
  match actors w !! handle with
  | Some a => alive a
  | None => false
  end.

(** A worker whose shutdown call can succeed: it is reachable and its
    process has a process group to destroy. *)
Definition ready_for_shutdown (w : World) (handle : nat) : bool :=
  match actors w !! handle with
  | Some a => alive a && process_group a
  | None => false
  end.

(** The actors after [f] has run in each of the actors [handles], in
    order. *)
Definition apply_to_each (f : RayExecutor → RayExecutor) (handles : list nat)
    (acts : list RayExecutor) : list RayExecutor :=
  foldl (λ acts h, alter f h acts) acts handles.

End Plugin.

(** Unfolds the monad of the driver code. *)
Ltac munfold :=
  unfold mbind, M_bind, mret, M_ret, lift, ray_get, ray_get_all, get_self,
    modify_self, os_getenv, os_putenv.

(** ** The rest of the plugin *)

Section PluginRest.
Context `{Collaborators}.

(** [RayPlugin._create_worker]: the cluster starts an actor, [started],
    and the driver gets its handle. (The CPU and GPU reservation requested
    for it has no counterpart in this model.) *)
Definition _create_worker (started : RayExecutor) : M nat :=
  λ w, (set_actors (actors w ++ [started]) w, Ok (length (actors w))).

(** [RayPlugin.setup]. [started i] is the actor the cluster starts on the
    [i]-th creation and [init_hook] is the attribute [self.init_hook],
    [None] when no hook was given. *)
Definition setup (started : nat → RayExecutor) (init_hook : option (Method unit))
    : M unit :=
  me ← get_self;
  ws ← for_each (λ i, _create_worker (started i)) (seq 0 (num_workers me));
  modify_self (set_workers ws);;
  match init_hook with
  | Some hook =>
      me ← get_self;
      futures ← for_each (λ w, remote w (execute hook)) (workers me);
      ray_get_all futures;;
      mret tt
  | None => mret tt
  end.

(** The property [distributed_sampler_kwargs]:
    [dict(num_replicas=self.num_workers, rank=self.global_rank)]. *)
Definition distributed_sampler_kwargs (p : RayPlugin) : gmap string nat :=
  <["rank" := global_rank p]> (<["num_replicas" := num_workers p]> ∅).

(** *** Further notions used to state the properties *)

(** What a call of [method] on [handle] resolves to, and what it does to
    the actors. *)
Definition call_result {A} (method : Method A) (acts : list RayExecutor)
    (handle : nat) : Future A :=
  match acts !! handle with
  | Some a =>
      if alive a then
        match (method a).2 with
        | Ok v => Ok v
        | Raise e => Raise (RayTaskError e)
        end
      else Raise RayActorError
  | None => Raise RayActorError
  end.

Definition call_effect {A} (method : Method A) (handle : nat)
    (acts : list RayExecutor) : list RayExecutor :=
  alter (λ a, if alive a then (method a).1 else a) handle acts.

(** The value the assignments [kvs] leave in variable [k]: the last one
    that is not [None], if there is one. *)
Fixpoint assigned (kvs : list (string * option string)) (k : string)
    : option string :=
  match kvs with
  | [] => None
  | (k', v) :: rest =>
      match assigned rest k with
      | Some u => Some u
      | None => if decide (k' = k) then v else None
      end
  end.

(** The environment after the assignments [kvs]. *)
Definition environ_after (kvs : list (string * option string))
    (env : gmap string string) : gmap string string :=
  foldl (λ env kv, match kv.2 with
                   | Some v => <[kv.1 := v]> env
                   | None => env
                   end) env kvs.

(** The envelope worker 0 fills from the results of its stage and the
    module the stage leaves behind. *)
Definition filled_envelope (results : Results) (trained : LightningModule)
    : Envelope :=
  (results,
   match checkpoint_callback (trainer trained) with
   | Some cb => best_model_path cb
   | None => None
   end,
   to_state_stream (state_dict trained),
   to_numpy <$> callback_metrics (trainer trained)).

(** The driver's module after the restoration from envelope [e]. *)
Definition restored (use_gpu : bool) (e : Envelope) (module : LightningModule)
    : LightningModule :=
  let '(_, best_path, state_stream, callback_metrics) := e in
  let module := load_state_dict (load_state_stream state_stream use_gpu) module in
  let t := trainer module in
  let t := match checkpoint_callback t with
           | Some _ => set_best_model_path best_path t
           | None => t
           end in
  set_trainer (update_callback_metrics (to_tensor <$> callback_metrics) t) module.

(** The address of the node of the actor behind [handle]. *)
Definition node_ip_of (acts : list RayExecutor) (handle : nat) : Future string :=
  call_result get_node_ip acts handle.

End PluginRest.

(** ** A concrete cluster *)

Module Demo.

(** Collaborators whose results are numbers and whose codec and tensor
    conversions copy their argument. *)
Definition collaborators : Collaborators :=
  {| Results := nat;
     StateDict := list Z;
     StateStream := list Z;
     Tensor := Z;
     NdArray := Z;
     to_state_stream := λ sd, sd;
     load_state_stream := λ stream _, stream;
     to_numpy := λ x, x;
     to_tensor := λ x, x |}.

#[export] Existing Instance collaborators.

(** The module held by the driver before the run. *)
Definition module0 : LightningModule :=
  {| state_dict := [0%Z];
     trainer := {| checkpoint_callback := Some {| best_model_path := None |};
                   callback_metrics := ∅ |} |}.

(** What training on the worker of rank [rank] leaves behind: weights, a
    checkpoint and a metric. *)
Definition trained (rank : nat) : LightningModule :=
  {| state_dict := [Z.of_nat rank; 7%Z];
     trainer := {| checkpoint_callback :=
                     Some {| best_model_path := Some "best.ckpt" |};
                   callback_metrics := {["loss" := 3%Z]} |} |}.

(** A worker on node [ip] whose stage returns [rank] as its result. *)
Definition worker (ip : string) (port : N) (rank : nat) : RayExecutor :=
  {| process := {| environ := ∅; node_ip_address := ip; ephemeral_port := port |};
     alive := true;
     process_group := false;
     run_stage := λ _, Ok (rank, trained rank) |}.

Definition plugin (handles : list nat) : RayPlugin :=
  {| _is_remote := false;
     num_workers := length handles;
     num_cpus_per_worker := 1;
     use_gpu := false;
     workers := handles;
     _local_rank := 0;
     _global_rank := 0;
     _node_rank := 0;
     global_to_local := None;
     _model := Some module0;
     _results := None |}.

Definition driver_process : Process :=
  {| environ := {["PL_TORCH_DISTRIBUTED_BACKEND" := "gloo"]};
     node_ip_address := "10.0.0.9";
     ephemeral_port := 50000%N |}.

(** Three workers on the nodes [n1; n1; n2]. *)
Definition world3 : World :=
  {| self := plugin [0; 1; 2];
     driver := driver_process;
     actors := [worker "n1" 40001%N 0; worker "n1" 40002%N 1; worker "n2" 40003%N 2];
     tune_session := false |}.

(** The same cluster once every worker has joined the process group. *)
Definition world3_joined : World :=
  set_actors (set_process_group true <$> actors world3) world3.

(** The joined cluster after the second worker has died. *)
Definition world3_dead : World :=
  set_actors (alter (set_alive false) 1 (actors world3_joined)) world3_joined.

(** The rank assignment that the code resolves for [n1; n1; n2]. *)
Definition ranks3 : list RankResolver.RankPair :=
  [Some (0, 1); Some (1, 1); Some (0, 2)].

(** Two filled envelopes. *)
Definition envelope0 : Envelope :=
  (0, Some "best.ckpt", [0%Z; 7%Z], {["loss" := 3%Z]}).


End Demo.

Module DemoMore.
Import Demo.

(** The three-worker cluster with nobody in the pool. *)
Definition world3_empty_pool : World := set_self (plugin []) world3.

(** The three-worker cluster after worker 0 has died. *)
Definition world3_leader_dead : World :=
  set_actors (alter (set_alive false) 0 (actors world3)) world3.

(** The plugin as a worker holds it once the ranks are resolved. *)
Definition remote_plugin : RayPlugin :=
  set__is_remote true (set_global_to_local (Some ranks3) (unpickled (plugin [0; 1; 2]))).

End DemoMore.

(** * Properties *)

(** ** Rank resolution *)

Section RankResolverFacts.
Import RankResolver.

Lemma earlier_on_node_0 node_ips ip : earlier_on_node node_ips ip 0 = 0.
Proof. reflexivity. Qed.

Lemma earlier_on_node_S node_ips ip r x :
  node_ips !! r = Some x →
  earlier_on_node node_ips ip (S r) =
    earlier_on_node node_ips ip r + (if decide (x = ip) then 1 else 0).
Proof.
  intros Hx. unfold earlier_on_node.
  rewrite (take_S_r _ _ _ Hx), filter_app, length_app. f_equal.
  rewrite filter_cons, filter_nil. by case_decide.
Qed.

(** Every address of the list has an entry in the node map. *)
Lemma fill_node_ip_map_keeps i node_ips m ip :
  is_Some (m !! ip) → is_Some (fill_node_ip_map i node_ips m !! ip).
Proof.
  revert i m. induction node_ips as [|x rest IH]; intros i m Hm; simpl; [done|].
  apply IH. destruct (decide (x = ip)) as [->|Hne].
  - rewrite lookup_insert_eq. eauto.
  - by rewrite lookup_insert_ne.
Qed.

Lemma fill_node_ip_map_is_Some i node_ips m ip :
  ip ∈ node_ips → is_Some (fill_node_ip_map i node_ips m !! ip).
Proof.
  revert i m. induction node_ips as [|x rest IH]; intros i m Hin; simpl.
  - by apply elem_of_nil in Hin.
  - apply elem_of_cons in Hin as [->|Hin]; [|by apply IH].
    apply fill_node_ip_map_keeps. rewrite lookup_insert_eq. eauto.
Qed.

(** The node map sends an address of the list to the last index that
    holds it, and leaves the other entries as they were. *)
Lemma fill_node_ip_map_lookup i node_ips m ip j :
  fill_node_ip_map i node_ips m !! ip = Some j →
  (m !! ip = Some j ∧ ip ∉ node_ips) ∨
  (∃ k, j = i + k ∧ node_ips !! k = Some ip ∧
        ∀ k', k < k' → node_ips !! k' ≠ Some ip).
Proof.
  revert i m. induction node_ips as [|x rest IH]; intros i m Hj; simpl in Hj.
  - left. split; [done|]. apply not_elem_of_nil.
  - apply IH in Hj as [[Hm Hnot]|(k & -> & Hk & Hlast)].
    + destruct (decide (x = ip)) as [->|Hne].
      * rewrite lookup_insert_eq in Hm. injection Hm as <-.
        right. exists 0. split; [lia|]. split; [done|].
        intros [|k'] Hlt; [lia|]. simpl. intros Hk'.
        apply Hnot. by eapply list_elem_of_lookup_2.
      * rewrite lookup_insert_ne in Hm by done.
        left. split; [done|]. by apply not_elem_of_cons.
    + right. exists (S k). split; [lia|]. split; [done|].
      intros [|k'] Hlt; [lia|]. simpl. apply Hlast. lia.
Qed.

(** The loop over the global ranks [k, k + n), started with counters that
    count the first [k] addresses: it succeeds, the counters then count
    the first [k + n] addresses, the entries outside the range are left as
    they were and the entry of rank [r] inside it holds the number of
    earlier workers on the same node and the node map's entry. *)
Lemma rank_loop_spec (node_ips : list string) (node_ip_map : gmap string nat)
    (n : nat) :
  (∀ ip, ip ∈ node_ips → is_Some (node_ip_map !! ip)) →
  ∀ (k : nat) (c : gmap string nat) (g : list RankPair),
    (k + n ≤ length node_ips)%nat →
    (∀ ip, counter_get c ip = earlier_on_node node_ips ip k) →
    ∃ c' g',
      rank_loop node_ips node_ip_map (seq k n) (c, g) = Ok (c', g') ∧
      length g' = length g ∧
      (∀ ip, counter_get c' ip = earlier_on_node node_ips ip (k + n)) ∧
      (∀ r : nat, (r < k ∨ k + n ≤ r)%nat → g' !! r = g !! r) ∧
      (∀ (r : nat) ip, (k ≤ r < k + n)%nat → (r < length g)%nat →
         node_ips !! r = Some ip →
         ∃ node, node_ip_map !! ip = Some node ∧
                 g' !! r = Some (Some (earlier_on_node node_ips ip r, node))).
Proof.
  intros Hmap. induction n as [|n IH]; intros k c g Hle Hc.
  - exists c, g. simpl. rewrite Nat.add_0_r. repeat split; try done.
    intros r ip ?. lia.
  - destruct (lookup_lt_is_Some_2 node_ips k) as [x Hx]; [lia|].
    destruct (Hmap x) as [node Hnode]; [by eapply list_elem_of_lookup_2|].
    set (c1 := <[x := S (counter_get c x)]> c).
    set (g1 := <[k := Some (counter_get c x, node)]> g).
    destruct (IH (S k) c1 g1) as (c' & g' & Hrun & Hlen & Hc' & Hout & Hin).
    { lia. }
    { intros ip. rewrite (earlier_on_node_S _ _ _ _ Hx). unfold c1, counter_get.
      case_decide as Hd.
      - subst. rewrite lookup_insert_eq. simpl. rewrite <- Hc. unfold counter_get. lia.
      - rewrite lookup_insert_ne by done. rewrite Nat.add_0_r. apply Hc. }
    exists c', g'. split; [|split; [|split; [|split]]].
    + simpl. unfold getitem. rewrite Hx. simpl. rewrite Hnode. simpl. exact Hrun.
    + rewrite Hlen. unfold g1. apply length_insert.
    + intros ip. rewrite Hc'. f_equal. lia.
    + intros r Hr. rewrite Hout by lia. unfold g1.
      apply list_lookup_insert_ne. lia.
    + intros r ip Hr Hlt Hip. destruct (decide (r = k)) as [->|Hne].
      * rewrite Hx in Hip. injection Hip as <-. exists node. split; [done|].
        rewrite Hout by lia. unfold g1. rewrite list_lookup_insert_eq by done.
        by rewrite Hc.
      * apply Hin; [lia| |done]. unfold g1. by rewrite length_insert.
Qed.

(** Called with as many workers as addresses, [get_local_ranks] succeeds
    on every list, the empty one included, and each entry of its result
    is determined by the list. *)
Lemma get_local_ranks_spec (node_ips : list string) :
  ∃ g,
    get_local_ranks node_ips (length node_ips) = Ok g ∧
    length g = length node_ips ∧
    ∀ (r : nat) ip, node_ips !! r = Some ip →
      ∃ node, fill_node_ip_map 0 node_ips ∅ !! ip = Some node ∧
              g !! r = Some (Some (earlier_on_node node_ips ip r, node)).
Proof.
  destruct (rank_loop_spec node_ips (fill_node_ip_map 0 node_ips ∅)
              (length node_ips) (fill_node_ip_map_is_Some 0 node_ips ∅)
              0 ∅ (replicate (length node_ips) None))
    as (c' & g' & Hrun & Hlen & _ & _ & Hin).
  { lia. }
  { intros ip. by rewrite earlier_on_node_0. }
  exists g'. unfold get_local_ranks. rewrite Hrun. simpl.
  rewrite length_replicate in Hlen. split; [done|]. split; [done|].
  intros r ip Hip. apply Hin; [|by rewrite length_replicate; eapply lookup_lt_Some|done].
  split; [lia|]. simpl. by eapply lookup_lt_Some.
Qed.

(** C5. For every non-empty list of node addresses, the resolution
    succeeds and the local rank of global rank [r] is the number of
    workers of smaller global rank on the same node: zero for the first
    worker of a node and one more for each further one. (At
    [A, B, A, A, B] this gives [0, 0, 1, 2, 1], as
    [C5_local_ranks_example] shows.) *)
Theorem C5_local_ranks_dense_per_node (node_ips : list string) :
  node_ips ≠ [] →
  ∃ g,
    get_local_ranks node_ips (length node_ips) = Ok g ∧
    local_ranks g =
      imap (λ r ip, Some (earlier_on_node node_ips ip r)) node_ips.
Proof.
  intros _. destruct (get_local_ranks_spec node_ips) as (g & Hg & Hlen & Hent).
  exists g. split; [done|]. apply list_eq. intros r.
  unfold local_ranks. rewrite list_lookup_fmap, list_lookup_imap.
  destruct (node_ips !! r) as [ip|] eqn:Hip.
  - destruct (Hent r ip Hip) as (node & _ & ->). done.
  - rewrite (lookup_ge_None_2 g r); [done|]. rewrite Hlen. by apply lookup_ge_None.
Qed.

(** The local ranks at [A, B, A, A, B]. *)
Lemma C5_local_ranks_example :
  ["A"; "B"; "A"; "A"; "B"] ≠ [] ∧
  ∃ g,
    get_local_ranks ["A"; "B"; "A"; "A"; "B"] 5 = Ok g ∧
    local_ranks g = [Some 0; Some 0; Some 1; Some 2; Some 1].
Proof.
  split; [discriminate|].
  exact (C5_local_ranks_dense_per_node ["A"; "B"; "A"; "A"; "B"]
           ltac:(discriminate)).
Defined.

(** The node rank the code assigns to a global rank is the largest
    global rank that sits on the same node. *)
Lemma node_rank_is_last_index (node_ips : list string) :
  ∃ g,
    get_local_ranks node_ips (length node_ips) = Ok g ∧
    ∀ (r : nat) ip, node_ips !! r = Some ip →
      ∃ l node, g !! r = Some (Some (l, node)) ∧
              node_ips !! node = Some ip ∧
              ∀ k : nat, (node < k)%nat → node_ips !! k ≠ Some ip.
Proof.
  destruct (get_local_ranks_spec node_ips) as (g & Hg & Hlen & Hent).
  exists g. split; [done|]. intros r ip Hip.
  destruct (Hent r ip Hip) as (node & Hnode & Hr).
  exists (earlier_on_node node_ips ip r), node. split; [done|].
  apply fill_node_ip_map_lookup in Hnode as [[Hm _]|(k & -> & Hk & Hlast)].
  - by rewrite lookup_empty in Hm.
  - done.
Qed.

(** C1. At the addresses [A, B, A, A, B] the code's node ranks are
    [3, 4, 3, 3, 4], the last global rank on each node, where a dense
    first-seen numbering of the two nodes gives [0, 1, 0, 0, 1]. *)
Theorem C1_node_ranks_not_dense :
  node_ranks <$> get_local_ranks ["A"; "B"; "A"; "A"; "B"] 5 =
    Ok [Some 3; Some 4; Some 3; Some 3; Some 4] ∧
  spec_node_ranks ["A"; "B"; "A"; "A"; "B"] =
    [Some 0; Some 1; Some 0; Some 0; Some 1] ∧
  node_ranks <$> get_local_ranks ["A"; "B"; "A"; "A"; "B"] 5 ≠
    Ok (spec_node_ranks ["A"; "B"; "A"; "A"; "B"]).
Proof. split; [|split]; [by vm_compute..|]. vm_compute. discriminate. Qed.

(** C6, as stated, fails: the empty list of addresses is not rejected,
    its resolution is the empty assignment. *)
Lemma C6_empty_input_not_rejected :
  get_local_ranks [] 0 = Ok [] ∧ ¬ is_Raise (get_local_ranks [] 0).
Proof. split; [reflexivity|]. simpl. tauto. Qed.

End RankResolverFacts.

(** ** Pickling *)

Section PickleFacts.
Import Pickle.

Lemma roundtrip_eq (p : gmap string PyVal) :
  is_Some (p !! "workers") →
  roundtrip p = Ok (<["workers" := PyList []]> p).
Proof.
  intros [ws Hws]. unfold roundtrip, __getstate__, __setstate__.
  rewrite Hws. simpl. f_equal.
  by rewrite insert_delete_eq, (right_id_L ∅ (∪)).
Qed.

(** C10. Pickling a plugin hands on a state without a [workers] entry,
    which agrees with the plugin on every other attribute, so that no
    worker handle of the list crosses; unpickling that state yields a
    plugin whose [workers] attribute is the empty list and whose other
    attributes are those of the original. *)
Theorem C10_roundtrip_clears_only_workers (p : gmap string PyVal) :
  is_Some (p !! "workers") →
  ∃ d q,
    __getstate__ p = Ok d ∧
    d !! "workers" = None ∧
    (∀ k, k ≠ "workers" → d !! k = p !! k) ∧
    __setstate__ ∅ d = q ∧
    roundtrip p = Ok q ∧
    q !! "workers" = Some (PyList []) ∧
    ∀ k, k ≠ "workers" → q !! k = p !! k.
Proof.
  intros Hws. exists (delete "workers" p), (<["workers" := PyList []]> p).
  split.
  { destruct Hws as [ws Hws]. unfold __getstate__. by rewrite Hws. }
  split; [apply lookup_delete_eq|]. split.
  { intros k Hk. by apply lookup_delete_ne. }
  split.
  { unfold __setstate__. by rewrite insert_delete_eq, (right_id_L ∅ (∪)). }
  split; [by apply roundtrip_eq|]. split.
  - by rewrite lookup_insert_eq.
  - intros k Hk. by rewrite lookup_insert_ne.
Qed.

(** The round trip of a plugin that holds two worker handles. *)
Lemma C10_roundtrip_example :
  let p := <["workers" := PyList [PyHandle 0; PyHandle 1]]>
             (__init__ 2 1 false PyNone) in
  is_Some (p !! "workers") ∧
  ∃ d q,
    __getstate__ p = Ok d ∧
    d !! "workers" = None ∧
    (∀ k, k ≠ "workers" → d !! k = p !! k) ∧
    __setstate__ ∅ d = q ∧
    roundtrip p = Ok q ∧
    q !! "workers" = Some (PyList []) ∧
    ∀ k, k ≠ "workers" → q !! k = p !! k.
Proof.
  intros p.
  assert (Hws : is_Some (p !! "workers")).
  { exists (PyList [PyHandle 0; PyHandle 1]). reflexivity. }
  split; [exact Hws|]. exact (C10_roundtrip_clears_only_workers p Hws).
Defined.

End PickleFacts.

(** ** The driver and its workers *)

Section PluginFacts.
Context `{Collaborators}.

Lemma set_actors_same (w : World) : set_actors (actors w) w = w.
Proof. by destruct w. Qed.

Lemma set_actors_twice acts acts' (w : World) :
  set_actors acts' (set_actors acts w) = set_actors acts' w.
Proof. done. Qed.

Lemma alter_as_insert (f : RayExecutor → RayExecutor) (acts : list RayExecutor)
    (h : nat) a :
  acts !! h = Some a → <[h := f a]> acts = alter f h acts.
Proof.
  intros Ha. apply list_eq. intros i. destruct (decide (h = i)) as [<-|Hne].
  - rewrite list_lookup_alter_eq, Ha, list_lookup_insert_eq; [done|].
    by eapply lookup_lt_Some.
  - by rewrite list_lookup_alter_ne, list_lookup_insert_ne.
Qed.

(** A call to a reachable actor whose method leaves the actor as [f]
    makes it and returns [v]. *)
Lemma remote_pure {A} (method : Method A) f (v : A) (w : World) (h : nat) :
  (∀ a, method a = (f a, Ok v)) →
  reachable w h = true →
  remote h method w = (set_actors (alter f h (actors w)) w, Ok (Ok v)).
Proof.
  intros Hm Hr. unfold reachable in Hr. unfold remote.
  destruct (actors w !! h) as [a|] eqn:Ha; [|done]. rewrite Hr, Hm.
  by rewrite (alter_as_insert f _ _ _ Ha).
Qed.

Lemma reachable_alter f (w : World) (h h' : nat) acts :
  (∀ a, alive (f a) = alive a) →
  (∀ i, alive <$> acts !! i = alive <$> actors w !! i) →
  reachable (set_actors (alter f h acts) w) h' = reachable w h'.
Proof.
  intros Hf Hacts. unfold reachable. simpl. specialize (Hacts h').
  destruct (decide (h = h')) as [<-|Hne].
  - rewrite list_lookup_alter_eq.
    destruct (acts !! h), (actors w !! h); simpl in *; try done.
    rewrite Hf. congruence.
  - rewrite list_lookup_alter_ne by done.
    destruct (acts !! h'), (actors w !! h'); simpl in *; congruence.
Qed.

Lemma apply_to_each_lookup f hs (acts : list RayExecutor) (h : nat) :
  apply_to_each f hs acts !! h =
    Nat.iter (length (filter (λ x, x = h) hs)) f <$> acts !! h.
Proof.
  revert acts. induction hs as [|x rest IH]; intros acts; simpl.
  - by destruct (acts !! h).
  - unfold apply_to_each in *. simpl. rewrite IH, filter_cons.
    case_decide as Hd; simpl.
    + subst. rewrite list_lookup_alter_eq. destruct (acts !! h); simpl; [|done].
      f_equal. apply Nat.iter_swap.
    + by rewrite list_lookup_alter_ne.
Qed.

Lemma length_apply_to_each f hs (acts : list RayExecutor) :
  length (apply_to_each f hs acts) = length acts.
Proof.
  revert acts. unfold apply_to_each.
  induction hs as [|x rest IH]; intros acts; simpl; [done|].
  by rewrite IH, length_alter.
Qed.

(** Calling such a method on every handle of [hs], all reachable, leaves
    the plugin and the driver process alone, runs [f] in each of the
    actors and resolves every future to [v]. *)
Lemma for_each_remote_pure {A} (method : Method A) f (v : A) (hs : list nat) :
  (∀ a, method a = (f a, Ok v)) →
  (∀ a, alive (f a) = alive a) →
  ∀ w : World,
    Forall (λ h, reachable w h = true) hs →
    for_each (λ h, remote h method) hs w =
      (set_actors (apply_to_each f hs (actors w)) w,
       Ok (replicate (length hs) (Ok v))).
Proof.
  intros Hm Hf. induction hs as [|x rest IH]; intros w Hall.
  - simpl. unfold mret, M_ret. by rewrite set_actors_same.
  - apply Forall_cons in Hall as [Hx Hrest]. simpl. munfold.
    rewrite (remote_pure method f v w x Hm Hx).
    rewrite IH.
    + simpl. by rewrite set_actors_twice.
    + eapply Forall_impl; [exact Hrest|]. intros h Hh. simpl in Hh.
      rewrite (reachable_alter f w x h (actors w) Hf); done.
Qed.

Lemma resolve_all_Ok {A} (n : nat) (v : A) :
  resolve_all (replicate n (Ok v)) = Ok (replicate n v).
Proof. induction n as [|n IH]; simpl; [done|]. by rewrite IH. Qed.

Lemma bind_Ok {A B} (m : M A) (k : A → M B) (w w' : World) (a : A) :
  m w = (w', Ok a) → (m ≫= k) w = k a w'.
Proof. intros Hm. unfold mbind, M_bind. by rewrite Hm. Qed.

(** A call to a live actor whose method only reads the actor. *)
Lemma remote_read {A} (method : Method A) (g : RayExecutor → A) (w : World)
    (h : nat) a :
  (∀ a, method a = (a, Ok (g a))) →
  actors w !! h = Some a → alive a = true →
  remote h method w = (w, Ok (Ok (g a))).
Proof.
  intros Hm Ha Hal. unfold remote. rewrite Ha, Hal, Hm.
  by rewrite (list_insert_id _ _ _ Ha), set_actors_same.
Qed.

Lemma alive_set_env_var_each kvs (a : RayExecutor) :
  alive (set_env_var_each kvs a) = alive a.
Proof.
  revert a. induction kvs as [|[k [v|]] rest IH]; intros a; simpl; [done|..];
    by rewrite IH.
Qed.

(** With every worker reachable, the rendezvous succeeds: the driver
    takes address and port from the process of worker 0 and runs
    [set_env_vars] with one list of values in every worker. *)
Lemma _setup_env_vars_spec (w : World) (h0 : nat) a0 :
  workers (self w) !! 0 = Some h0 →
  actors w !! h0 = Some a0 →
  Forall (λ h, reachable w h = true) (workers (self w)) →
  _setup_env_vars w =
    (set_actors
       (apply_to_each
          (set_env_var_each
             (zip rendezvous_keys (rendezvous_values (process a0) (driver w))))
          (workers (self w)) (actors w))
       (set_driver (rendezvous_driver (process a0) (driver w)) w),
     Ok tt).
Proof.
  intros Hh0 Ha0 Hall.
  assert (Hal : alive a0 = true).
  { apply list_elem_of_lookup_2 in Hh0.
    rewrite Forall_forall in Hall. specialize (Hall h0 Hh0).
    unfold reachable in Hall. by rewrite Ha0 in Hall. }
  unfold _setup_env_vars.
  erewrite bind_Ok; [|reflexivity].
  erewrite bind_Ok; [|unfold lift, getitem; by rewrite Hh0].
  erewrite bind_Ok; [|by apply (remote_read get_node_ip (λ a, node_ip_address (process a)) w h0 a0)].
  erewrite bind_Ok; [|reflexivity].
  erewrite bind_Ok; [|reflexivity].
  erewrite bind_Ok; [|unfold lift, getitem; simpl; by rewrite Hh0].
  erewrite bind_Ok;
    [|by apply (remote_read _ (λ a, find_free_port (process a)) _ h0 a0)].
  erewrite bind_Ok; [|reflexivity].
  erewrite bind_Ok; [|reflexivity].
  erewrite bind_Ok; [|reflexivity].
  erewrite bind_Ok.
  2:{ apply (for_each_remote_pure _
               (set_env_var_each
                  (zip rendezvous_keys (rendezvous_values (process a0) (driver w))))
               tt).
      - intros a. reflexivity.
      - apply alive_set_env_var_each.
      - eapply Forall_impl; [exact Hall|]. by intros h Hh. }
  unfold ray_get_all, lift. rewrite resolve_all_Ok. reflexivity.
Qed.

(** *** What [set_env_vars] does to an environment *)

Lemma getenv_set_env_var_each_skip kvs (a : RayExecutor) (k : string) :
  (∀ v, (k, Some v) ∉ kvs) →
  getenv k (process (set_env_var_each kvs a)) = getenv k (process a).
Proof.
  revert a. induction kvs as [|[k' [v'|]] rest IH]; intros a Hnot; simpl; [done|..].
  - rewrite IH by (intros v Hv; apply (Hnot v); by right).
    unfold getenv. simpl. apply lookup_insert_ne. intros ->.
    apply (Hnot v'). by left.
  - apply IH. intros v Hv. apply (Hnot v). by right.
Qed.

Lemma getenv_set_env_var_each_set kvs (a : RayExecutor) (k v : string) :
  NoDup kvs.*1 → (k, Some v) ∈ kvs →
  getenv k (process (set_env_var_each kvs a)) = Some v.
Proof.
  revert a. induction kvs as [|[k' v'] rest IH]; intros a Hnd Hin.
  - by apply elem_of_nil in Hin.
  - simpl in Hnd. apply NoDup_cons in Hnd as [Hk' Hnd].
    apply elem_of_cons in Hin as [Heq|Hin].
    + injection Heq as <- <-. simpl.
      rewrite getenv_set_env_var_each_skip.
      * unfold getenv. simpl. apply lookup_insert_eq.
      * intros u Hu. apply Hk'. apply list_elem_of_fmap. by exists (k, Some u).
    + simpl. by apply IH.
Qed.

Lemma elem_of_zip_fmap {A B} (g : A → B) (l : list A) (x : A) :
  x ∈ l → (x, g x) ∈ zip l (g <$> l).
Proof.
  induction l as [|y l IH]; intros Hin; [by apply elem_of_nil in Hin|].
  apply elem_of_cons in Hin as [->|Hin]; simpl; [by left|]. right. by apply IH.
Qed.

Lemma elem_of_zip_fmap_inv {A B} (g : A → B) (l : list A) (x : A) (y : B) :
  (x, y) ∈ zip l (g <$> l) → y = g x.
Proof.
  induction l as [|z l IH]; simpl; intros Hin; [by apply elem_of_nil in Hin|].
  apply elem_of_cons in Hin as [Heq|Hin]; [by injection Heq as -> ->|by apply IH].
Qed.

Lemma fst_zip_fmap {A B} (g : A → B) (l : list A) : (zip l (g <$> l)).*1 = l.
Proof. apply fst_zip. by rewrite length_fmap. Qed.

Lemma NoDup_rendezvous_keys : NoDup rendezvous_keys.
Proof. apply (bool_decide_unpack _). by vm_compute. Qed.

(** After [set_env_vars] has run at least once in a worker with the
    values read from process [d], the worker agrees with [d] on every
    rendezvous variable that is set in [d]. *)
Lemma rendezvous_env_set (d : Process) (n : nat) (a : RayExecutor) (k v : string) :
  k ∈ rendezvous_keys → getenv k d = Some v →
  getenv k (process
    (Nat.iter (S n)
       (set_env_var_each (zip rendezvous_keys ((λ k, getenv k d) <$> rendezvous_keys)))
       a)) = Some v.
Proof.
  intros Hk Hv. rewrite Nat.iter_succ. apply getenv_set_env_var_each_set.
  - rewrite fst_zip_fmap. apply NoDup_rendezvous_keys.
  - rewrite <- Hv. by apply (elem_of_zip_fmap (λ k, getenv k d)).
Qed.

(** A rendezvous variable that is unset in [d] is left as it was in the
    worker, however often [set_env_vars] runs there. *)
Lemma rendezvous_env_skip (d : Process) (n : nat) (a : RayExecutor) (k : string) :
  getenv k d = None →
  getenv k (process
    (Nat.iter n
       (set_env_var_each (zip rendezvous_keys ((λ k, getenv k d) <$> rendezvous_keys)))
       a)) = getenv k (process a).
Proof.
  intros Hnone. induction n as [|n IH]; [done|].
  rewrite Nat.iter_succ, getenv_set_env_var_each_skip; [done|].
  intros v Hv. apply (elem_of_zip_fmap_inv (λ k, getenv k d)) in Hv. congruence.
Qed.

Lemma count_handle_pos (hs : list nat) (h : nat) :
  h ∈ hs → ∃ n, length (filter (λ x, x = h) hs) = S n.
Proof.
  intros Hin. destruct (filter (λ x, x = h) hs) as [|y l] eqn:Hf.
  - assert (Hh : h ∈ filter (λ x, x = h) hs) by by apply list_elem_of_filter.
    rewrite Hf in Hh. by apply elem_of_nil in Hh.
  - by exists (length l).
Qed.

(** The four assignments that the rendezvous sends to every worker,
    written out. *)
Lemma rendezvous_assignments (p0 d : Process) :
  zip rendezvous_keys (rendezvous_values p0 d) =
    [("PL_GLOBAL_SEED", getenv "PL_GLOBAL_SEED" d);
     ("PL_TORCH_DISTRIBUTED_BACKEND", getenv "PL_TORCH_DISTRIBUTED_BACKEND" d);
     ("MASTER_ADDR", Some (node_ip_address p0));
     ("MASTER_PORT", Some (pretty (find_free_port p0)))].
Proof.
  unfold rendezvous_values, rendezvous_keys, rendezvous_driver, getenv, putenv.
  cbn [fmap list_fmap zip zip_with environ set_environ].
  f_equal; [|f_equal; [|f_equal; [|f_equal]]]; f_equal.
  - by rewrite !lookup_insert_ne by done.
  - by rewrite !lookup_insert_ne by done.
  - rewrite lookup_insert_ne by done. apply lookup_insert_eq.
  - apply lookup_insert_eq.
Qed.

(** C7. With every worker reachable the rendezvous succeeds. The driver's
    [MASTER_ADDR] and [MASTER_PORT] are the address of the process of
    worker 0 and the port found free in that process. Every worker of the
    pool is sent the same four assignments: [PL_GLOBAL_SEED] and
    [PL_TORCH_DISTRIBUTED_BACKEND] as the driver holds them and
    [MASTER_ADDR] and [MASTER_PORT] of worker 0; afterwards every worker
    of the pool holds that address and that port, and the driver's seed
    and backend where the driver has them set. *)
Theorem C7_rendezvous_from_worker_0 (w : World) (h0 : nat) (a0 : RayExecutor) :
  workers (self w) !! 0 = Some h0 →
  actors w !! h0 = Some a0 →
  Forall (λ h, reachable w h = true) (workers (self w)) →
  ∃ w',
    _setup_env_vars w = (w', Ok tt) ∧
    getenv "MASTER_ADDR" (driver w') = Some (node_ip_address (process a0)) ∧
    getenv "MASTER_PORT" (driver w') = Some (pretty (find_free_port (process a0))) ∧
    actors w' =
      apply_to_each
        (set_env_var_each
           [("PL_GLOBAL_SEED", getenv "PL_GLOBAL_SEED" (driver w));
            ("PL_TORCH_DISTRIBUTED_BACKEND",
             getenv "PL_TORCH_DISTRIBUTED_BACKEND" (driver w));
            ("MASTER_ADDR", Some (node_ip_address (process a0)));
            ("MASTER_PORT", Some (pretty (find_free_port (process a0))))])
        (workers (self w)) (actors w) ∧
    ∀ h : nat, h ∈ workers (self w) →
      ∃ a', actors w' !! h = Some a' ∧
            getenv "MASTER_ADDR" (process a') =
              Some (node_ip_address (process a0)) ∧
            getenv "MASTER_PORT" (process a') =
              Some (pretty (find_free_port (process a0))) ∧
            (∀ v, getenv "PL_GLOBAL_SEED" (driver w) = Some v →
                  getenv "PL_GLOBAL_SEED" (process a') = Some v) ∧
            (∀ v, getenv "PL_TORCH_DISTRIBUTED_BACKEND" (driver w) = Some v →
                  getenv "PL_TORCH_DISTRIBUTED_BACKEND" (process a') = Some v).
Proof.
  intros Hh0 Ha0 Hall. eexists. split; [by eapply _setup_env_vars_spec|].
  cbn [driver actors set_actors set_driver]. rewrite rendezvous_assignments.
  split; [|split; [|split; [reflexivity|]]].
  - unfold rendezvous_driver, getenv, putenv. cbn [environ set_environ].
    rewrite lookup_insert_ne by done. apply lookup_insert_eq.
  - unfold rendezvous_driver, getenv, putenv. cbn [environ set_environ].
    apply lookup_insert_eq.
  - intros h Hh. rewrite apply_to_each_lookup.
    rewrite Forall_forall in Hall. specialize (Hall h Hh). unfold reachable in Hall.
    destruct (actors w !! h) as [a|]; [|done].
    destruct (count_handle_pos _ _ Hh) as [n ->].
    eexists. split; [reflexivity|]. rewrite Nat.iter_succ.
    split; [|split; [|split]].
    + apply getenv_set_env_var_each_set; [exact NoDup_rendezvous_keys|].
      right. right. by left.
    + apply getenv_set_env_var_each_set; [exact NoDup_rendezvous_keys|].
      right. right. right. by left.
    + intros v Hv. rewrite Hv.
      apply getenv_set_env_var_each_set; [exact NoDup_rendezvous_keys|]. by left.
    + intros v Hv. rewrite Hv.
      apply getenv_set_env_var_each_set; [exact NoDup_rendezvous_keys|].
      right. by left.
Qed.

(** C9. [set_env_var] with a [None] value leaves the worker as it is; so
    in the rendezvous, which succeeds, a rendezvous variable that is unset
    on the driver is left in every worker as it was there before. *)
Theorem C9_unset_variable_is_skipped (w : World) (h0 : nat) (a0 : RayExecutor)
    (key : string) (a : RayExecutor) :
  workers (self w) !! 0 = Some h0 →
  actors w !! h0 = Some a0 →
  Forall (λ h, reachable w h = true) (workers (self w)) →
  set_env_var key None a = a ∧
  ∃ w',
    _setup_env_vars w = (w', Ok tt) ∧
    ∀ k, k ∈ rendezvous_keys → getenv k (driver w') = None →
      ∀ (h : nat) a1, actors w !! h = Some a1 →
        ∃ a', actors w' !! h = Some a' ∧
              getenv k (process a') = getenv k (process a1).
Proof.
  intros Hh0 Ha0 Hall. split; [reflexivity|].
  eexists. split; [by eapply _setup_env_vars_spec|].
  simpl. intros k _ Hnone h a1 Ha1. rewrite apply_to_each_lookup, Ha1. simpl.
  eexists. split; [done|]. by apply rendezvous_env_skip.
Qed.

(** *** The remote entry point *)

Lemma run_stage_init_dist_connection (a : RayExecutor) :
  run_stage (init_dist_connection a) = run_stage a.
Proof. unfold init_dist_connection. by destruct (process_group a). Qed.

(** C8. A worker whose rank has an entry in the rank assignment and whose
    stage succeeds returns; what it returns is a filled envelope (results,
    checkpoint path, state stream, metrics) exactly when its global rank
    is 0, and [None] for every other rank. *)
Theorem C8_envelope_iff_rank_0 (me : RayPlugin) (module trained : LightningModule)
    (rank : nat) (queue : option Queue) (a : RayExecutor)
    (g : list RankResolver.RankPair) (l n : nat) (results : Results) :
  global_to_local me = Some g →
  g !! rank = Some (Some (l, n)) →
  run_stage a module = Ok (results, trained) →
  ∃ v,
    (execute_remote me (Some module) rank queue a).2 = Ok v ∧
    (is_Some v ↔ rank = 0) ∧
    (rank ≠ 0 → v = None) ∧
    (rank = 0 →
       v = Some (results,
                 match checkpoint_callback (trainer trained) with
                 | Some cb => best_model_path cb
                 | None => None
                 end,
                 to_state_stream (state_dict trained),
                 to_numpy <$> callback_metrics (trainer trained))).
Proof.
  intros Hg Hrank Hrun. unfold execute_remote, set_world_ranks. simpl.
  rewrite Hg. simpl. unfold getitem, global_rank. simpl. rewrite Hrank. simpl.
  rewrite run_stage_init_dist_connection, Hrun. simpl.
  unfold global_rank. simpl. eexists. split; [reflexivity|].
  destruct (decide (rank = 0)) as [->|Hne].
  - split; [|split]; [|done|done]. split; [done|]. intros _. eauto.
  - split; [|split]; [|done|done]. split; [|done]. by intros [? ?].
Qed.

(** *** Collecting the results *)


(** The value of the execution loop, when it returns, is [None]. *)
Lemma execution_loop_returns_None (tune_enabled : bool) (w w' : World) v :
  execution_loop tune_enabled w = (w', Ok v) → v = None.
Proof.
  unfold execution_loop. munfold.
  destruct (dispatch tune_enabled w) as [w1 [[[model queue] results]|e]]; [|done].
  destruct (recover_child_process_weights model results w1) as [w2 [[]|e]]; [|done].
  by intros [= _ <-].
Qed.

(** *** Teardown *)

Lemma ready_after_shutdown (w : World) (x h : nat) a :
  actors w !! x = Some a →
  ready_for_shutdown
    (set_actors (<[x := set_process_group false a]> (actors w)) w) h =
    if decide (h = x) then false else ready_for_shutdown w h.
Proof.
  intros Ha. unfold ready_for_shutdown. simpl. case_decide as Hd.
  - subst. rewrite list_lookup_insert_eq by by eapply lookup_lt_Some.
    simpl. apply andb_false_r.
  - by rewrite list_lookup_insert_ne.
Qed.

Lemma alive_after_insert (acts : list RayExecutor) (x : nat) a a' :
  acts !! x = Some a → alive a' = alive a →
  alive <$> <[x := a']> acts = alive <$> acts.
Proof.
  intros Ha Hal. rewrite list_fmap_insert, Hal. apply list_insert_id.
  by rewrite list_lookup_fmap, Ha.
Qed.

(** The shutdown calls never raise on the driver; they leave the plugin
    and the liveness of every actor as they were, and all their futures
    resolve without failure exactly when the handles are distinct and each
    worker is ready for shutdown. *)
Lemma shutdown_all_spec (hs : list nat) :
  ∀ w : World, ∃ acts' futs,
    for_each (λ h, remote h (execute shutdown_remote)) hs w =
      (set_actors acts' w, Ok futs) ∧
    alive <$> acts' = alive <$> actors w ∧
    (is_Ok (resolve_all futs) ↔
       NoDup hs ∧ Forall (λ h, ready_for_shutdown w h = true) hs).
Proof.
  induction hs as [|x rest IH]; intros w.
  - exists (actors w), []. simpl. unfold mret, M_ret. rewrite set_actors_same.
    split; [done|]. split; [done|]. split; [|done].
    intros _. split; [constructor|constructor].
  - simpl. munfold. unfold remote at 1, execute, shutdown_remote.
    assert (Hfail : ready_for_shutdown w x = false → ∀ e,
      ∃ acts' futs,
        (let (w', r) := for_each (λ h, remote h (λ a : RayExecutor,
                 if process_group a then (set_process_group false a, Ok tt)
                 else (a, Raise AssertionError))) rest w in
         match r with
         | Ok ys => (w', Ok (Raise e :: ys))
         | Raise e' => (w', Raise e')
         end) = (set_actors acts' w, Ok futs) ∧
        alive <$> acts' = alive <$> actors w ∧
        (is_Ok (resolve_all futs) ↔
           NoDup (x :: rest) ∧
           Forall (λ h, ready_for_shutdown w h = true) (x :: rest))).
    { intros Hnot e. destruct (IH w) as (acts' & futs & Heq & Halive & _).
      unfold execute, shutdown_remote in Heq. rewrite Heq.
      exists acts', (Raise e :: futs). split; [done|]. split; [done|].
      simpl. split; [done|]. intros [_ Hall].
      apply Forall_cons in Hall as [Hx _]. congruence. }
    unfold ready_for_shutdown in Hfail.
    destruct (actors w !! x) as [a|] eqn:Ha; [|by apply Hfail].
    destruct (alive a) eqn:Hal; [|by apply Hfail].
    destruct (process_group a) eqn:Hpg.
    + set (w1 := set_actors (<[x := set_process_group false a]> (actors w)) w).
      destruct (IH w1) as (acts' & futs & Heq & Halive & Hiff).
      unfold execute, shutdown_remote in Heq. rewrite Heq.
      exists acts', (Ok tt :: futs). split; [done|]. split.
      { rewrite Halive. unfold w1. simpl. by apply (alive_after_insert _ _ a). }
      assert (Hready : ready_for_shutdown w x = true).
      { unfold ready_for_shutdown. by rewrite Ha, Hal, Hpg. }
      assert (Hok : is_Ok (resolve_all (Ok tt :: futs)) ↔ is_Ok (resolve_all futs)).
      { simpl. by destruct (resolve_all futs). }
      rewrite Hok, Hiff. rewrite NoDup_cons, Forall_cons, !Forall_forall.
      split.
      * intros [Hnd Hall]. assert (Hx : x ∉ rest).
        { intros Hx. specialize (Hall x Hx). unfold w1 in Hall.
          rewrite (ready_after_shutdown w x x a Ha) in Hall.
          by rewrite decide_True in Hall. }
        split; [done|]. split; [done|]. intros h Hh. specialize (Hall h Hh).
        unfold w1 in Hall. rewrite (ready_after_shutdown w x h a Ha) in Hall.
        by case_decide.
      * intros [[Hx Hnd] [_ Hall]]. split; [done|]. intros h Hh.
        unfold w1. rewrite (ready_after_shutdown w x h a Ha).
        rewrite decide_False; [by apply Hall|]. by intros ->.
    + rewrite (list_insert_id _ _ _ Ha), set_actors_same. apply Hfail. apply andb_false_r.
Qed.

(** The kills never raise: they run [set_alive false] in every listed
    actor. *)
Lemma kill_all_spec (hs : list nat) :
  ∀ w : World,
    for_each ray_kill hs w =
      (set_actors (apply_to_each (set_alive false) hs (actors w)) w,
       Ok (replicate (length hs) tt)).
Proof.
  induction hs as [|x rest IH]; intros w.
  - simpl. unfold mret, M_ret. by rewrite set_actors_same.
  - simpl. munfold. unfold ray_kill at 1. by rewrite IH.
Qed.

Lemma alive_iter_kill (n : nat) (a : RayExecutor) :
  alive (Nat.iter (S n) (set_alive false) a) = false.
Proof. by rewrite Nat.iter_succ. Qed.

(** C3, amended. Teardown is all or nothing. Either every worker handle
    is distinct and ready for shutdown: then it returns, the worker list
    is empty and every worker that was listed is dead. Or it raises the
    first failure of a shutdown call: then the worker list is what it was
    and no actor has been killed. *)
Theorem C3_teardown_all_or_nothing (w w' : World) (r : result unit) :
  post_dispatch w = (w', r) →
  (r = Ok tt ∧
   (NoDup (workers (self w)) ∧
    Forall (λ h, ready_for_shutdown w h = true) (workers (self w))) ∧
   workers (self w') = [] ∧
   ∀ (h : nat) a', h ∈ workers (self w) → actors w' !! h = Some a' →
                   alive a' = false)
  ∨
  (is_Raise r ∧
   ¬ (NoDup (workers (self w)) ∧
      Forall (λ h, ready_for_shutdown w h = true) (workers (self w))) ∧
   workers (self w') = workers (self w) ∧
   alive <$> actors w' = alive <$> actors w).
Proof.
  unfold post_dispatch. munfold.
  destruct (shutdown_all_spec (workers (self w)) w)
    as (acts' & futs & Heq & Halive & Hiff).
  rewrite Heq. destruct (resolve_all futs) as [vs|e] eqn:Hres.
  - unfold lift. cbv beta iota. rewrite kill_all_spec. simpl. intros [= <- <-]. left.
    split; [done|]. split; [by apply Hiff|]. split; [done|].
    simpl. intros h a' Hh. rewrite apply_to_each_lookup.
    destruct (count_handle_pos _ _ Hh) as [n ->].
    destruct (acts' !! h); [|done]. intros [= <-]. apply alive_iter_kill.
  - unfold lift. cbv beta iota. intros [= <- <-]. right.
    split; [done|]. split; [|done].
    intros Hready. by apply Hiff in Hready.
Qed.

End PluginFacts.

(** ** The properties on the concrete cluster *)

Section DemoFacts.
Import Demo.

(** The rendezvous on the three-worker cluster: address and port are
    those of worker 0 on node [n1], not those of the driver process. *)
Lemma C7_rendezvous_example :
  workers (self world3) !! 0 = Some 0 ∧
  actors world3 !! 0 = Some (worker "n1" 40001 0) ∧
  Forall (λ h, reachable world3 h = true) (workers (self world3)) ∧
  ∃ w',
    _setup_env_vars world3 = (w', Ok tt) ∧
    getenv "MASTER_ADDR" (driver w') = Some "n1" ∧
    getenv "MASTER_PORT" (driver w') = Some (pretty 40001%N) ∧
    actors w' =
      apply_to_each
        (set_env_var_each
           [("PL_GLOBAL_SEED", getenv "PL_GLOBAL_SEED" (driver world3));
            ("PL_TORCH_DISTRIBUTED_BACKEND",
             getenv "PL_TORCH_DISTRIBUTED_BACKEND" (driver world3));
            ("MASTER_ADDR", Some "n1");
            ("MASTER_PORT", Some (pretty 40001%N))])
        [0; 1; 2] (actors world3) ∧
    ∀ h : nat, h ∈ [0; 1; 2] →
      ∃ a', actors w' !! h = Some a' ∧
            getenv "MASTER_ADDR" (process a') = Some "n1" ∧
            getenv "MASTER_PORT" (process a') = Some (pretty 40001%N) ∧
            (∀ v, getenv "PL_GLOBAL_SEED" (driver world3) = Some v →
                  getenv "PL_GLOBAL_SEED" (process a') = Some v) ∧
            (∀ v, getenv "PL_TORCH_DISTRIBUTED_BACKEND" (driver world3) = Some v →
                  getenv "PL_TORCH_DISTRIBUTED_BACKEND" (process a') = Some v).
Proof.
  assert (H1 : workers (self world3) !! 0 = Some 0) by reflexivity.
  assert (H2 : actors world3 !! 0 = Some (worker "n1" 40001 0)) by reflexivity.
  assert (H3 : Forall (λ h, reachable world3 h = true) (workers (self world3))).
  { repeat constructor. }
  split; [exact H1|]. split; [exact H2|]. split; [exact H3|].
  exact (C7_rendezvous_from_worker_0 world3 0 (worker "n1" 40001 0) H1 H2 H3).
Defined.

(** On the three-worker cluster the driver has no [PL_GLOBAL_SEED]: the
    rendezvous succeeds and leaves that variable alone in every worker. *)
Lemma C9_unset_seed_example :
  workers (self world3) !! 0 = Some 0 ∧
  actors world3 !! 0 = Some (worker "n1" 40001 0) ∧
  Forall (λ h, reachable world3 h = true) (workers (self world3)) ∧
  set_env_var "PL_GLOBAL_SEED" None (worker "n2" 40003 2) = worker "n2" 40003 2 ∧
  ∃ w',
    _setup_env_vars world3 = (w', Ok tt) ∧
    ∀ k, k ∈ rendezvous_keys → getenv k (driver w') = None →
      ∀ (h : nat) a1, actors world3 !! h = Some a1 →
        ∃ a', actors w' !! h = Some a' ∧
              getenv k (process a') = getenv k (process a1).
Proof.
  assert (H1 : workers (self world3) !! 0 = Some 0) by reflexivity.
  assert (H2 : actors world3 !! 0 = Some (worker "n1" 40001 0)) by reflexivity.
  assert (H3 : Forall (λ h, reachable world3 h = true) (workers (self world3))).
  { repeat constructor. }
  split; [exact H1|]. split; [exact H2|]. split; [exact H3|].
  exact (C9_unset_variable_is_skipped world3 0 (worker "n1" 40001 0)
           "PL_GLOBAL_SEED" (worker "n2" 40003 2) H1 H2 H3).
Defined.

(** Worker 0 of the three-worker cluster returns a filled envelope. *)
Lemma C8_envelope_example :
  let me := set_global_to_local (Some ranks3) (unpickled (plugin [0; 1; 2])) in
  let a := worker "n1" 40001 0 in
  global_to_local me = Some ranks3 ∧
  ranks3 !! 0 = Some (Some (0, 1)) ∧
  run_stage a module0 = Ok (0, trained 0) ∧
  ∃ v,
    (execute_remote me (Some module0) 0 None a).2 = Ok v ∧
    (is_Some v ↔ 0 = 0) ∧
    v = Some envelope0.
Proof.
  intros me a.
  assert (H1 : global_to_local me = Some ranks3) by reflexivity.
  assert (H2 : ranks3 !! 0 = Some (Some (0, 1))) by reflexivity.
  assert (H3 : run_stage a module0 = Ok (0, trained 0)) by reflexivity.
  split; [exact H1|]. split; [exact H2|]. split; [exact H3|].
  destruct (C8_envelope_iff_rank_0 me module0 (trained 0) 0 None a ranks3 0 1 0
              H1 H2 H3) as (v & Hv & Hiff & _ & Hfilled).
  exists v. split; [exact Hv|]. split; [exact Hiff|]. exact (Hfilled eq_refl).
Defined.


(** C3, as stated, fails: with the second worker dead, teardown raises,
    the worker list keeps its three handles and the other two workers are
    still alive. *)
Lemma C3_teardown_raises_on_dead_worker :
  (post_dispatch world3_dead).2 = Raise RayActorError ∧
  workers (self (post_dispatch world3_dead).1) = [0; 1; 2] ∧
  alive <$> actors (post_dispatch world3_dead).1 = [true; false; true].
Proof. repeat split; reflexivity. Qed.

(** Teardown of the cluster whose workers have all joined the process
    group: it returns, the worker list is empty and every worker is dead. *)
Lemma C3_teardown_example :
  post_dispatch world3_joined = ((post_dispatch world3_joined).1, Ok tt) ∧
  workers (self (post_dispatch world3_joined).1) = [] ∧
  alive <$> actors (post_dispatch world3_joined).1 = [false; false; false].
Proof.
  assert (H1 : post_dispatch world3_joined = ((post_dispatch world3_joined).1, Ok tt))
    by reflexivity.
  split; [exact H1|].
  destruct (C3_teardown_all_or_nothing world3_joined _ _ H1)
    as [(_ & _ & Hws & _)|(Hr & _)]; [|destruct Hr].
  split; [exact Hws|]. reflexivity.
Defined.

(** C4. On the three-worker cluster the run succeeds and worker 0 returns
    the result [0], which the driver stores in [_results] together with
    the restored weights; yet the execution loop, and with it
    [start_training], [start_evaluating] and [start_predicting], returns
    [None]. *)
Theorem C4_leader_result_is_not_returned :
  (dispatch true world3).2 =
    Ok (Some module0, None, [Some envelope0; None; None]) ∧
  _results (self (start_training world3).1) = Some 0 ∧
  state_dict <$> _model (self (start_training world3).1) = Some [0%Z; 7%Z] ∧
  (start_training world3).2 = Ok None ∧
  (start_evaluating world3).2 = Ok None ∧
  (start_predicting world3).2 = Ok None.
Proof. repeat split; by vm_compute. Qed.

End DemoFacts.

(** * Further properties *)

(** ** Rank resolution: bounds, failure and distinctness *)

Section RankResolverMore.
Import RankResolver.

Lemma earlier_on_node_mono (node_ips : list string) ip (r r' : nat) :
  (r ≤ r')%nat → (earlier_on_node node_ips ip r ≤ earlier_on_node node_ips ip r')%nat.
Proof.
  induction 1 as [|r' _ IH]; [done|].
  destruct (node_ips !! r') as [x|] eqn:Hx.
  - rewrite (earlier_on_node_S _ _ _ _ Hx). lia.
  - unfold earlier_on_node in *. apply lookup_ge_None in Hx.
    rewrite (take_ge node_ips (S r')) by lia.
    by rewrite (take_ge node_ips r') in IH by lia.
Qed.

Lemma earlier_on_node_lt (node_ips : list string) ip (r r' : nat) :
  node_ips !! r = Some ip → (r < r')%nat →
  (earlier_on_node node_ips ip r < earlier_on_node node_ips ip r')%nat.
Proof.
  intros Hr Hlt.
  pose proof (earlier_on_node_mono node_ips ip (S r) r' Hlt) as Hm.
  rewrite (earlier_on_node_S _ _ _ _ Hr), decide_True in Hm by done. lia.
Qed.

Lemma earlier_on_node_le (node_ips : list string) ip (r : nat) :
  (earlier_on_node node_ips ip r ≤ r)%nat.
Proof.
  unfold earlier_on_node.
  etransitivity; [apply length_filter|]. rewrite length_take. lia.
Qed.

Lemma rank_loop_app node_ips node_ip_map (l1 l2 : list nat) st :
  rank_loop node_ips node_ip_map (l1 ++ l2) st =
    (st' ← rank_loop node_ips node_ip_map l1 st;
     rank_loop node_ips node_ip_map l2 st').
Proof.
  revert st. induction l1 as [|x l1 IH]; intros st; simpl; [done|].
  destruct (rank_step node_ips node_ip_map st x) as [st1|e]; simpl; [apply IH|done].
Qed.

(** The entry of a resolved assignment at a global rank whose worker sits
    on node [ip]. *)
Lemma resolved_entry (node_ips : list string) g (r : nat) ip :
  get_local_ranks node_ips (length node_ips) = Ok g →
  node_ips !! r = Some ip →
  ∃ node : nat,
    g !! r = Some (Some (earlier_on_node node_ips ip r, node)) ∧
    node_ips !! node = Some ip ∧
    ∀ k : nat, (node < k)%nat → node_ips !! k ≠ Some ip.
Proof.
  intros Hg Hr. destruct (get_local_ranks_spec node_ips) as (g' & Hg' & _ & Hent).
  rewrite Hg in Hg'. injection Hg' as <-.
  destruct (Hent r ip Hr) as (node & Hnode & Hentry). exists node.
  split; [done|].
  apply fill_node_ip_map_lookup in Hnode as [[Hm _]|(k & -> & Hk & Hlast)]; [|done].
  by rewrite lookup_empty in Hm.
Qed.

Lemma resolved_length (node_ips : list string) g :
  get_local_ranks node_ips (length node_ips) = Ok g → length g = length node_ips.
Proof.
  intros Hg. destruct (get_local_ranks_spec node_ips) as (g' & Hg' & Hlen & _).
  rewrite Hg in Hg'. by injection Hg' as <-.
Qed.

(** The two outcomes of the resolution: it succeeds, with one entry per
    worker, when there is an address for every worker, and raises
    [IndexError] when [num_workers] exceeds the number of addresses. *)
Lemma get_local_ranks_outcome (node_ips : list string) (num_workers : nat) :
  match get_local_ranks node_ips num_workers with
  | Ok g => (num_workers ≤ length node_ips)%nat ∧ length g = num_workers
  | Raise e => (length node_ips < num_workers)%nat ∧ e = IndexError
  end.
Proof.
  unfold get_local_ranks.
  destruct (decide (num_workers ≤ length node_ips)%nat) as [Hle|Hgt].
  - destruct (rank_loop_spec node_ips (fill_node_ip_map 0 node_ips ∅) num_workers
                (fill_node_ip_map_is_Some 0 node_ips ∅) 0 ∅
                (replicate num_workers None))
      as (c' & g' & Hrun & Hlen & _); [lia|by intros ip|].
    rewrite Hrun. simpl. rewrite length_replicate in Hlen. done.
  - assert (Hsplit : ∃ m : nat, num_workers = (length node_ips + S m)%nat)
      by (exists (num_workers - S (length node_ips))%nat; lia).
    destruct Hsplit as [m ->]. rewrite seq_app, rank_loop_app.
    destruct (rank_loop_spec node_ips (fill_node_ip_map 0 node_ips ∅)
                (length node_ips) (fill_node_ip_map_is_Some 0 node_ips ∅) 0 ∅
                (replicate (length node_ips + S m) None))
      as (c' & g' & Hrun & _); [lia|by intros ip|].
    rewrite Hrun. simpl. unfold getitem.
    rewrite (lookup_ge_None_2 node_ips (length node_ips)) by lia.
    simpl. split; [lia|done].
Qed.

(** X1. The resolution needs an address for every worker: it succeeds,
    with one entry per worker, exactly when [num_workers] does not exceed
    the number of addresses, and raises [IndexError] otherwise. *)
Theorem get_local_ranks_needs_an_address_per_worker (node_ips : list string)
    (num_workers : nat) :
  match get_local_ranks node_ips num_workers with
  | Ok g => (num_workers ≤ length node_ips)%nat ∧ length g = num_workers
  | Raise e => (length node_ips < num_workers)%nat ∧ e = IndexError
  end.
Proof.
  unfold get_local_ranks.
  destruct (decide (num_workers ≤ length node_ips)%nat) as [Hle|Hgt].
  - destruct (rank_loop_spec node_ips (fill_node_ip_map 0 node_ips ∅) num_workers
                (fill_node_ip_map_is_Some 0 node_ips ∅) 0 ∅
                (replicate num_workers None))
      as (c' & g' & Hrun & Hlen & _); [lia|by intros ip|].
    rewrite Hrun. simpl. rewrite length_replicate in Hlen. done.
  - assert (Hsplit : ∃ m : nat, num_workers = (length node_ips + S m)%nat)
      by (exists (num_workers - S (length node_ips))%nat; lia).
    destruct Hsplit as [m ->]. rewrite seq_app, rank_loop_app.
    destruct (rank_loop_spec node_ips (fill_node_ip_map 0 node_ips ∅)
                (length node_ips) (fill_node_ip_map_is_Some 0 node_ips ∅) 0 ∅
                (replicate (length node_ips + S m) None))
      as (c' & g' & Hrun & _); [lia|by intros ip|].
    rewrite Hrun. simpl. unfold getitem.
    rewrite (lookup_ge_None_2 node_ips (length node_ips)) by lia.
    simpl. split; [lia|done].
Qed.

(** X2. No two global ranks get the same pair of local rank and node
    rank. *)
Theorem rank_pairs_are_distinct (node_ips : list string) g (r1 r2 : nat) pair :
  get_local_ranks node_ips (length node_ips) = Ok g →
  g !! r1 = Some pair → g !! r2 = Some pair → r1 = r2.
Proof.
  intros Hg H1 H2. pose proof (resolved_length _ _ Hg) as Hlen.
  destruct (lookup_lt_is_Some_2 node_ips r1) as [ip1 Hip1];
    [rewrite <- Hlen; by eapply lookup_lt_Some|].
  destruct (lookup_lt_is_Some_2 node_ips r2) as [ip2 Hip2];
    [rewrite <- Hlen; by eapply lookup_lt_Some|].
  destruct (resolved_entry _ _ _ _ Hg Hip1) as (n1 & He1 & Hn1 & _).
  destruct (resolved_entry _ _ _ _ Hg Hip2) as (n2 & He2 & Hn2 & _).
  rewrite H1 in He1. rewrite H2 in He2. injection He1 as ->.
  injection He2 as Hl <-. rewrite Hn1 in Hn2. injection Hn2 as <-.
  destruct (Nat.lt_trichotomy r1 r2) as [Hlt|[->|Hlt]]; [|done|].
  - pose proof (earlier_on_node_lt _ _ _ _ Hip1 Hlt). lia.
  - pose proof (earlier_on_node_lt _ _ _ _ Hip2 Hlt). lia.
Qed.

(** X3. Two workers get the same node rank exactly when they sit on the
    same node. *)
Theorem node_ranks_equal_iff_same_node (node_ips : list string) g
    (r1 r2 l1 l2 n1 n2 : nat) ip1 ip2 :
  get_local_ranks node_ips (length node_ips) = Ok g →
  node_ips !! r1 = Some ip1 → node_ips !! r2 = Some ip2 →
  g !! r1 = Some (Some (l1, n1)) → g !! r2 = Some (Some (l2, n2)) →
  n1 = n2 ↔ ip1 = ip2.
Proof.
  intros Hg Hip1 Hip2 H1 H2.
  destruct (resolved_entry _ _ _ _ Hg Hip1) as (m1 & He1 & Hn1 & Hlast1).
  destruct (resolved_entry _ _ _ _ Hg Hip2) as (m2 & He2 & Hn2 & Hlast2).
  rewrite H1 in He1. rewrite H2 in He2.
  injection He1 as _ ->. injection He2 as _ ->. split.
  - intros ->. rewrite Hn1 in Hn2. by injection Hn2.
  - intros <-. destruct (Nat.lt_trichotomy m1 m2) as [Hlt|[->|Hlt]]; [|done|].
    + by destruct (Hlast1 m2 Hlt).
    + by destruct (Hlast2 m1 Hlt).
Qed.

(** X4. Bounds on the ranks of a worker on node [ip]: its local rank is
    at most its global rank and below the number of workers on its node;
    its node rank is at least its global rank and below the number of
    workers. *)
Theorem rank_bounds (node_ips : list string) g (r l n : nat) ip :
  get_local_ranks node_ips (length node_ips) = Ok g →
  node_ips !! r = Some ip →
  g !! r = Some (Some (l, n)) →
  (l ≤ r)%nat ∧ (l < length (filter (λ x, x = ip) node_ips))%nat ∧
  (r ≤ n)%nat ∧ (n < length node_ips)%nat.
Proof.
  intros Hg Hip Hr.
  destruct (resolved_entry _ _ _ _ Hg Hip) as (m & He & Hn & Hlast).
  rewrite Hr in He. injection He as -> ->.
  split; [apply earlier_on_node_le|]. split; [|split].
  - pose proof (earlier_on_node_lt node_ips ip r (S r) Hip ltac:(lia)) as Hlt.
    pose proof (earlier_on_node_mono node_ips ip (S r) (length node_ips)) as Hm.
    unfold earlier_on_node in Hm at 2. rewrite take_ge in Hm by lia.
    apply lookup_lt_Some in Hip. lia.
  - destruct (decide (r ≤ m)%nat) as [|Hgt]; [done|].
    destruct (Hlast r ltac:(lia) Hip).
  - by eapply lookup_lt_Some.
Qed.

(** C6, amended. The resolution has one failure mode, [IndexError] when
    [num_workers] exceeds the number of addresses, and succeeds otherwise
    with one entry per worker. So with one address per worker it succeeds
    on every list, the empty one included; the empty list is resolved to
    the empty assignment when there is no worker and is rejected, with
    that [IndexError], as soon as there is one. *)
Theorem C6_get_local_ranks_fails_only_without_address (node_ips : list string)
    (num_workers : nat) :
  match get_local_ranks node_ips num_workers with
  | Ok g => (num_workers ≤ length node_ips)%nat ∧ length g = num_workers
  | Raise e => (length node_ips < num_workers)%nat ∧ e = IndexError
  end ∧
  (∃ g, get_local_ranks node_ips (length node_ips) = Ok g ∧
        length g = length node_ips) ∧
  get_local_ranks [] num_workers =
    (if decide (num_workers = 0) then Ok [] else Raise IndexError).
Proof.
  split; [apply get_local_ranks_outcome|]. split.
  - destruct (get_local_ranks_spec node_ips) as (g & Hg & Hlen & _). eauto.
  - case_decide as Hn; [by subst|].
    pose proof (get_local_ranks_outcome [] num_workers) as Hout.
    destruct (get_local_ranks [] num_workers) as [g|e].
    + destruct Hout as [Hle _]. simpl in Hle. lia.
    + by destruct Hout as [_ ->].
Qed.

End RankResolverMore.

(** ** The worker's environment *)

Section EnvironmentMore.
Context `{Collaborators}.

Lemma set_env_var_each_eq kvs (a : RayExecutor) :
  set_env_var_each kvs a =
    set_process
      (set_environ (environ_after kvs (environ (process a))) (process a)) a.
Proof.
  revert a. induction kvs as [|[k [v|]] rest IH]; intros [[env ip port] al pg rs].
  - reflexivity.
  - simpl. by rewrite IH.
  - simpl. by rewrite IH.
Qed.

Lemma lookup_environ_after kvs (env : gmap string string) (k : string) :
  environ_after kvs env !! k =
    match assigned kvs k with
    | Some v => Some v
    | None => env !! k
    end.
Proof.
  revert env. induction kvs as [|[k' v] rest IH]; intros env; [done|].
  unfold environ_after in *. simpl. rewrite IH.
  destruct (assigned rest k) as [u|]; [done|].
  destruct v as [v|]; case_decide as Hk; subst; simpl;
    rewrite ?lookup_insert_eq, ?lookup_insert_ne by done; done.
Qed.

Lemma environ_after_twice kvs (env : gmap string string) :
  environ_after kvs (environ_after kvs env) = environ_after kvs env.
Proof.
  apply map_eq. intros k. rewrite !lookup_environ_after.
  by destruct (assigned kvs k).
Qed.


(** X6. [set_env_vars] is idempotent: a second call with the same
    arguments has the same outcome and leaves the worker as the first call
    left it. *)
Theorem set_env_vars_idempotent (keys : list string)
    (values : list (option string)) (a : RayExecutor) :
  set_env_vars keys values (set_env_vars keys values a).1 =
    set_env_vars keys values a.
Proof.
  unfold set_env_vars. case_decide; simpl; [|done]. f_equal.
  rewrite !set_env_var_each_eq. simpl. by rewrite environ_after_twice.
Qed.

End EnvironmentMore.

(** ** Calls to workers that may be unreachable *)

Section RemoteMore.
Context `{Collaborators}.

Lemma alter_absent (f : RayExecutor → RayExecutor) (acts : list RayExecutor)
    (h : nat) :
  acts !! h = None → alter f h acts = acts.
Proof.
  intros Hh. apply list_eq. intros i. rewrite list_lookup_alter.
  case_decide; [|done]. subst. by rewrite Hh.
Qed.

(** A remote call never raises on the driver: it resolves a future and
    changes at most the actor it names. *)
Lemma remote_unfold {A} (method : Method A) (h : nat) (w : World) :
  remote h method w =
    (set_actors (call_effect method h (actors w)) w,
     Ok (call_result method (actors w) h)).
Proof.
  unfold remote, call_effect, call_result.
  destruct (actors w !! h) as [a|] eqn:Ha.
  - destruct (alive a) eqn:Hal.
    + destruct (method a) as [a' r] eqn:Hm. simpl.
      rewrite <- (alter_as_insert _ _ _ _ Ha), Hal, Hm. done.
    + rewrite <- (alter_as_insert _ _ _ _ Ha), Hal.
      by rewrite (list_insert_id _ _ _ Ha), set_actors_same.
  - by rewrite alter_absent, set_actors_same.
Qed.

Lemma reachable_call_effect {A} (method : Method A) (x h : nat) (w : World) :
  (∀ a, alive (method a).1 = alive a) →
  reachable (set_actors (call_effect method x (actors w)) w) h = reachable w h.
Proof.
  intros Hal. unfold reachable, call_effect. simpl.
  rewrite list_lookup_alter. case_decide; [|done]. subst.
  destruct (actors w !! h) as [a|]; simpl; [|done].
  destruct (alive a) eqn:Ha; [by rewrite Hal|done].
Qed.

(** A method that always returns, with a value that it does not itself
    change, and that keeps the actor alive: called on each handle of [hs]
    in turn, its futures are those of the calls on the actors as they were
    at the start. *)
Lemma for_each_remote_total {A} (method : Method A) (g : RayExecutor → A)
    (hs : list nat) :
  (∀ a, (method a).2 = Ok (g a)) →
  (∀ a, g (method a).1 = g a) →
  (∀ a, alive (method a).1 = alive a) →
  ∀ w : World,
    for_each (λ h, remote h method) hs w =
      (set_actors (foldl (λ acts h, call_effect method h acts) (actors w) hs) w,
       Ok (call_result method (actors w) <$> hs)).
Proof.
  intros Hres Hg Hal. induction hs as [|x rest IH]; intros w.
  - simpl. unfold mret, M_ret. by rewrite set_actors_same.
  - simpl. unfold mbind, M_bind, mret, M_ret. rewrite remote_unfold, IH. simpl.
    do 3 f_equal. apply list_fmap_ext. intros _ h _.
    unfold call_result, call_effect. rewrite list_lookup_alter.
    case_decide; [|done]. subst.
    destruct (actors w !! h) as [a|]; simpl; [|done].
    destruct (alive a) eqn:Ha; simpl; [|by rewrite Ha].
    by rewrite Hal, Ha, !Hres, Hg.
Qed.

Lemma call_result_total {A} (method : Method A) (g : RayExecutor → A)
    (acts : list RayExecutor) (h : nat) :
  (∀ a, (method a).2 = Ok (g a)) →
  call_result method acts h =
    match acts !! h with
    | Some a => if alive a then Ok (g a) else Raise RayActorError
    | None => Raise RayActorError
    end.
Proof.
  intros Hres. unfold call_result. destruct (acts !! h) as [a|]; [|done].
  by rewrite Hres.
Qed.

(** The futures of such calls resolve together when every handle is
    reachable; otherwise [ray.get] raises [RayActorError]. *)
Lemma resolve_all_total {A} (method : Method A) (g : RayExecutor → A)
    (w : World) (hs : list nat) :
  (∀ a, (method a).2 = Ok (g a)) →
  match resolve_all (call_result method (actors w) <$> hs) with
  | Ok vs =>
      Forall (λ h, reachable w h = true) hs ∧
      Forall2 (λ h v, ∃ a, actors w !! h = Some a ∧ v = g a) hs vs
  | Raise e => e = RayActorError ∧ ∃ h, h ∈ hs ∧ reachable w h = false
  end.
Proof.
  intros Hres. induction hs as [|x rest IH]; simpl.
  - split; constructor.
  - rewrite (call_result_total _ g) by done.
    destruct (actors w !! x) as [a|] eqn:Ha; simpl.
    + destruct (alive a) eqn:Hal; simpl.
      * destruct (resolve_all _) as [vs|e]; simpl.
        -- destruct IH as [Hall Hvs]. split.
           ++ constructor; [|done]. unfold reachable. by rewrite Ha.
           ++ constructor; [|done]. eauto.
        -- destruct IH as [-> (h & Hh & Hr)]. split; [done|].
           exists h. split; [by right|done].
      * split; [done|]. exists x. split; [by left|].
        unfold reachable. by rewrite Ha.
    + split; [done|]. exists x. split; [by left|].
      unfold reachable. by rewrite Ha.
Qed.

Lemma foldl_call_effect_id {A} (method : Method A) (hs : list nat)
    (acts : list RayExecutor) :
  (∀ a, (method a).1 = a) →
  foldl (λ acts h, call_effect method h acts) acts hs = acts.
Proof.
  intros Hid. induction hs as [|x rest IH]; simpl; [done|].
  unfold call_effect at 2. rewrite list_alter_id; [done|].
  intros a. rewrite Hid. by destruct (alive a).
Qed.

End RemoteMore.

(** ** Rendezvous and rank lookup with unreachable workers *)

Section RendezvousMore.
Context `{Collaborators}.

Lemma iter_alive (F : RayExecutor → RayExecutor) (n : nat) (a : RayExecutor) :
  (∀ a, alive (F a) = alive a) → alive (Nat.iter n F a) = alive a.
Proof.
  intros HF. induction n as [|n IH]; [done|]. by rewrite Nat.iter_succ, HF.
Qed.

Lemma alive_set_env_vars keys values (a : RayExecutor) :
  alive (set_env_vars keys values a).1 = alive a.
Proof.
  unfold set_env_vars. case_decide; simpl; [|done]. apply alive_set_env_var_each.
Qed.

Lemma set_env_vars_rendezvous (p0 d : Process) (a : RayExecutor) :
  (set_env_vars rendezvous_keys (rendezvous_values p0 d) a).1 =
    set_env_var_each (zip rendezvous_keys (rendezvous_values p0 d)) a.
Proof. reflexivity. Qed.

(** The rendezvous with a live worker 0: the driver takes address and
    port from it and calls [set_env_vars] on every worker; the outcome is
    that of awaiting those calls. *)
Lemma _setup_env_vars_leader_alive (w : World) (h0 : nat) a0 :
  workers (self w) !! 0 = Some h0 →
  actors w !! h0 = Some a0 →
  alive a0 = true →
  let method :=
    set_env_vars rendezvous_keys (rendezvous_values (process a0) (driver w)) in
  _setup_env_vars w =
    (set_actors
       (foldl (λ acts h, call_effect method h acts) (actors w) (workers (self w)))
       (set_driver (rendezvous_driver (process a0) (driver w)) w),
     match resolve_all (call_result method (actors w) <$> workers (self w)) with
     | Ok _ => Ok tt
     | Raise e => Raise e
     end).
Proof.
  intros Hh0 Ha0 Hal method. unfold _setup_env_vars.
  erewrite bind_Ok; [|reflexivity].
  erewrite bind_Ok; [|unfold lift, getitem; by rewrite Hh0].
  erewrite bind_Ok;
    [|by apply (remote_read get_node_ip (λ a, node_ip_address (process a)) w h0 a0)].
  erewrite bind_Ok; [|reflexivity].
  erewrite bind_Ok; [|reflexivity].
  erewrite bind_Ok; [|unfold lift, getitem; simpl; by rewrite Hh0].
  erewrite bind_Ok;
    [|by apply (remote_read _ (λ a, find_free_port (process a)) _ h0 a0)].
  erewrite bind_Ok; [|reflexivity].
  erewrite bind_Ok; [|reflexivity].
  erewrite bind_Ok; [|reflexivity].
  erewrite bind_Ok.
  2:{ apply (for_each_remote_total method (λ _, tt)).
      - intros a. reflexivity.
      - done.
      - apply alive_set_env_vars. }
  unfold ray_get_all, lift, mbind, M_bind, mret, M_ret. simpl.
  by destruct (resolve_all _).
Qed.

(** X7. The rendezvous fails fast: without a worker it raises
    [IndexError], with an unreachable worker 0 it raises [RayActorError],
    and in both cases neither the driver's environment nor any worker has
    been touched. *)
Theorem rendezvous_fails_fast_without_leader (w : World) :
  (∀ h0, workers (self w) !! 0 = Some h0 → reachable w h0 = false) →
  _setup_env_vars w =
    (w, Raise (match workers (self w) with
               | [] => IndexError
               | _ :: _ => RayActorError
               end)).
Proof.
  intros Hleader. unfold _setup_env_vars.
  erewrite bind_Ok; [|reflexivity].
  destruct (workers (self w)) as [|h0 rest] eqn:Hws; [reflexivity|].
  erewrite bind_Ok; [|reflexivity].
  specialize (Hleader h0 eq_refl). unfold reachable in Hleader.
  unfold mbind, M_bind, remote.
  destruct (actors w !! h0) as [a|]; [|reflexivity].
  by rewrite Hleader.
Qed.

(** X8. With a live worker 0 and an unreachable worker elsewhere in the
    pool the rendezvous raises [RayActorError], but only after the driver
    has set [MASTER_ADDR] and [MASTER_PORT] and every reachable worker has
    received them: nothing is rolled back. *)
Theorem rendezvous_broadcast_is_not_rolled_back (w : World) (h0 hbad : nat)
    (a0 : RayExecutor) :
  workers (self w) !! 0 = Some h0 →
  actors w !! h0 = Some a0 →
  alive a0 = true →
  hbad ∈ workers (self w) →
  reachable w hbad = false →
  ∃ w',
    _setup_env_vars w = (w', Raise RayActorError) ∧
    getenv "MASTER_ADDR" (driver w') = Some (node_ip_address (process a0)) ∧
    getenv "MASTER_PORT" (driver w') = Some (pretty (find_free_port (process a0))) ∧
    ∀ (h : nat) a, h ∈ workers (self w) → actors w !! h = Some a →
      alive a = true →
      ∃ a', actors w' !! h = Some a' ∧
            getenv "MASTER_ADDR" (process a') = Some (node_ip_address (process a0)) ∧
            getenv "MASTER_PORT" (process a') =
              Some (pretty (find_free_port (process a0))).
Proof.
  intros Hh0 Ha0 Hal Hbad Hdead. eexists. split.
  { rewrite (_setup_env_vars_leader_alive w h0 a0 Hh0 Ha0 Hal). f_equal.
    pose proof (resolve_all_total
      (set_env_vars rendezvous_keys (rendezvous_values (process a0) (driver w)))
      (λ _, tt) w (workers (self w)) ltac:(done)) as Hres.
    destruct (resolve_all _) as [vs|e].
    - destruct Hres as [Hall _]. rewrite Forall_forall in Hall.
      specialize (Hall hbad Hbad). congruence.
    - by destruct Hres as [-> _]. }
  assert (Haddr : getenv "MASTER_ADDR" (rendezvous_driver (process a0) (driver w)) =
                  Some (node_ip_address (process a0))).
  { unfold rendezvous_driver, getenv, putenv. simpl.
    rewrite lookup_insert_ne by done. apply lookup_insert_eq. }
  assert (Hport : getenv "MASTER_PORT" (rendezvous_driver (process a0) (driver w)) =
                  Some (pretty (find_free_port (process a0)))).
  { unfold rendezvous_driver, getenv, putenv. simpl. apply lookup_insert_eq. }
  cbn [driver actors set_actors set_driver].
  split; [done|]. split; [done|]. intros h a Hh Ha Halive.
  change (foldl _ (actors w) (workers (self w)))
    with (apply_to_each
            (λ a, if alive a
                  then (set_env_vars rendezvous_keys
                          (rendezvous_values (process a0) (driver w)) a).1
                  else a)
            (workers (self w)) (actors w)).
  rewrite apply_to_each_lookup, Ha. eexists. split; [reflexivity|].
  destruct (count_handle_pos _ _ Hh) as [n ->]. rewrite Nat.iter_succ.
  rewrite iter_alive, Halive.
  2:{ intros x. cbv beta. destruct (alive x) eqn:Hx; [|done].
      by rewrite alive_set_env_vars. }
  rewrite set_env_vars_rendezvous.
  split; apply getenv_set_env_var_each_set;
    try (unfold rendezvous_values; rewrite fst_zip_fmap; apply NoDup_rendezvous_keys).
  - rewrite <- Haddr. apply (elem_of_zip_fmap (λ k, getenv k _)).
    unfold rendezvous_keys. set_solver.
  - rewrite <- Hport. apply (elem_of_zip_fmap (λ k, getenv k _)).
    unfold rendezvous_keys. set_solver.
Qed.

(** [get_local_ranks] only reads: it leaves the world as it is, and its
    outcome is that of resolving the ranks of the addresses its workers
    report. *)
Lemma get_local_ranks_unfold (w : World) :
  get_local_ranks w =
    (w, node_ips ← resolve_all
                     (call_result get_node_ip (actors w) <$> workers (self w));
        RankResolver.get_local_ranks node_ips (num_workers (self w))).
Proof.
  unfold get_local_ranks.
  erewrite bind_Ok; [|reflexivity].
  erewrite bind_Ok.
  2:{ apply (for_each_remote_total get_node_ip (λ a, node_ip_address (process a)));
      done. }
  rewrite foldl_call_effect_id by done. rewrite set_actors_same.
  unfold ray_get_all, lift, mbind, M_bind, result_bind.
  by destruct (resolve_all _).
Qed.

(** X9. With every worker reachable and as many workers as
    [num_workers], [get_local_ranks] returns, leaves the world as it is,
    and its result is the resolution of the addresses of its workers'
    nodes, in the order of the worker list. *)
Theorem get_local_ranks_of_reachable_workers (w : World) :
  Forall (λ h, reachable w h = true) (workers (self w)) →
  num_workers (self w) = length (workers (self w)) →
  ∃ node_ips g,
    get_local_ranks w = (w, Ok g) ∧
    Forall2 (λ h ip, ∃ a, actors w !! h = Some a ∧ ip = node_ip_address (process a))
            (workers (self w)) node_ips ∧
    RankResolver.get_local_ranks node_ips (length node_ips) = Ok g ∧
    length g = num_workers (self w).
Proof.
  intros Hall Hn. rewrite get_local_ranks_unfold.
  pose proof (resolve_all_total get_node_ip (λ a, node_ip_address (process a))
                w (workers (self w)) ltac:(done)) as Hres.
  destruct (resolve_all _) as [ips|e].
  - destruct Hres as [_ Hips]. simpl.
    assert (Hlen : length ips = num_workers (self w)).
    { rewrite Hn. symmetry. by eapply Forall2_length. }
    rewrite <- Hlen.
    destruct (get_local_ranks_spec ips) as (g & Hg & Hglen & _).
    exists ips, g. rewrite Hg. done.
  - destruct Hres as [_ (h & Hh & Hr)]. rewrite Forall_forall in Hall.
    specialize (Hall h Hh). congruence.
Qed.

(** X10. If some worker of the pool is unreachable, [get_local_ranks]
    raises [RayActorError] and leaves the world as it is. *)
Theorem get_local_ranks_with_unreachable_worker (w : World) (h : nat) :
  h ∈ workers (self w) → reachable w h = false →
  get_local_ranks w = (w, Raise RayActorError).
Proof.
  intros Hh Hr. rewrite get_local_ranks_unfold.
  pose proof (resolve_all_total get_node_ip (λ a, node_ip_address (process a))
                w (workers (self w)) ltac:(done)) as Hres.
  destruct (resolve_all _) as [ips|e].
  - destruct Hres as [Hall _]. rewrite Forall_forall in Hall.
    specialize (Hall h Hh). congruence.
  - by destruct Hres as [-> _].
Qed.

End RendezvousMore.

(** ** Inside a worker *)

Section WorkerMore.
Context `{Collaborators}.

(** What [set_world_ranks] does once the plugin is marked remote. *)
Lemma set_world_ranks_remote (me : RayPlugin) (i : nat) :
  _is_remote me = true →
  set_world_ranks i me =
    match global_to_local me with
    | None => Raise AttributeError
    | Some g =>
        match g !! i with
        | None => Raise IndexError
        | Some None => Raise TypeError
        | Some (Some (l, n)) =>
            Ok (set_local_node_rank l n (set__global_rank i me))
        end
    end.
Proof.
  intros Hr. unfold set_world_ranks. rewrite Hr. simpl.
  destruct (global_to_local me) as [g|]; simpl; [|done].
  unfold getitem, global_rank. simpl.
  by destruct (g !! i) as [[[l n]|]|].
Qed.

(** The outcome of [execute_remote], case by case. *)
Lemma execute_remote_unfold (me : RayPlugin) (module : LightningModule)
    (i : nat) (queue : option Queue) (a : RayExecutor) :
  execute_remote me (Some module) i queue a =
    match global_to_local me with
    | None => (a, Raise AttributeError)
    | Some g =>
        match g !! i with
        | None => (a, Raise IndexError)
        | Some None => (a, Raise TypeError)
        | Some (Some _) =>
            (init_dist_connection a,
             match run_stage a module with
             | Raise e => Raise e
             | Ok (results, trained) =>
                 Ok (if decide (i = 0) then
                       Some (results,
                             match checkpoint_callback (trainer trained) with
                             | Some cb => best_model_path cb
                             | None => None
                             end,
                             to_state_stream (state_dict trained),
                             to_numpy <$> callback_metrics (trainer trained))
                     else None)
             end)
        end
    end.
Proof.
  unfold execute_remote. rewrite set_world_ranks_remote by done. simpl.
  destruct (global_to_local me) as [g|]; [|done].
  destruct (g !! i) as [[[l n]|]|]; [|done..].
  rewrite run_stage_init_dist_connection.
  destruct (run_stage a module) as [[results trained]|e]; [|done].
  unfold global_rank. simpl. done.
Qed.

Lemma process_group_init_dist_connection (a : RayExecutor) :
  process_group (init_dist_connection a) = true.
Proof. unfold init_dist_connection. by destruct (process_group a) eqn:Hpg. Qed.

(** X12. [set_world_ranks] does nothing on the driver, where the plugin
    is not marked remote. On a worker it succeeds only for a rank that has
    an entry in the rank table; it then adopts that rank and the local and
    node rank of the entry, and if the table has [num_workers] entries the
    rank given to the sampler is below its [num_replicas]. *)
Theorem set_world_ranks_adopts_table_entry (me me' : RayPlugin) (i : nat) :
  set_world_ranks i me = Ok me' →
  if _is_remote me then
    ∃ g l n,
      global_to_local me = Some g ∧ g !! i = Some (Some (l, n)) ∧
      global_rank me' = i ∧ local_rank me' = l ∧ node_rank me' = n ∧
      distributed_sampler_kwargs me' !! "rank" = Some i ∧
      distributed_sampler_kwargs me' !! "num_replicas" = Some (num_workers me) ∧
      (length g = num_workers me → (i < world_size me')%nat)
  else me' = me.
Proof.
  destruct (_is_remote me) eqn:Hr.
  - rewrite set_world_ranks_remote by done.
    destruct (global_to_local me) as [g|]; [|done].
    destruct (g !! i) as [[[l n]|]|] eqn:Hi; [|done..].
    intros [= <-]. exists g, l, n. repeat split; try done.
    intros Hlen. unfold world_size. simpl. rewrite <- Hlen.
    by eapply lookup_lt_Some.
  - unfold set_world_ranks. rewrite Hr. by intros [= <-].
Qed.

End WorkerMore.

(** ** The further properties on the concrete cluster *)

Section DemoMoreFacts.
Import Demo DemoMore.

(** On the nodes [n1; n1; n2] only rank 1 holds the pair [(1, 1)]. *)
Lemma rank_pairs_are_distinct_example :
  RankResolver.get_local_ranks ["n1"; "n1"; "n2"] 3 = Ok ranks3 ∧
  ranks3 !! 1 = Some (Some (1, 1)) ∧
  1 = 1.
Proof.
  assert (H1 : RankResolver.get_local_ranks ["n1"; "n1"; "n2"] 3 = Ok ranks3)
    by reflexivity.
  assert (H2 : ranks3 !! 1 = Some (Some (1, 1))) by reflexivity.
  split; [exact H1|]. split; [exact H2|].
  exact (rank_pairs_are_distinct ["n1"; "n1"; "n2"] ranks3 1 1 _ H1 H2 H2).
Defined.

(** Ranks 0 and 1 sit on the same node and share the node rank; ranks 1
    and 2 sit on different nodes and do not. *)
Lemma node_ranks_equal_iff_same_node_example :
  RankResolver.get_local_ranks ["n1"; "n1"; "n2"] 3 = Ok ranks3 ∧
  (1 = 1 ↔ "n1" = "n1") ∧ (1 = 2 ↔ "n1" = "n2").
Proof.
  assert (H1 : RankResolver.get_local_ranks ["n1"; "n1"; "n2"] 3 = Ok ranks3)
    by reflexivity.
  split; [exact H1|]. split.
  - exact (node_ranks_equal_iff_same_node ["n1"; "n1"; "n2"] ranks3 0 1 0 1 1 1
             "n1" "n1" H1 eq_refl eq_refl eq_refl eq_refl).
  - exact (node_ranks_equal_iff_same_node ["n1"; "n1"; "n2"] ranks3 1 2 1 0 1 2
             "n1" "n2" H1 eq_refl eq_refl eq_refl eq_refl).
Defined.

(** The bounds for rank 1 on the nodes [n1; n1; n2]. *)
Lemma rank_bounds_example :
  RankResolver.get_local_ranks ["n1"; "n1"; "n2"] 3 = Ok ranks3 ∧
  (1 ≤ 1)%nat ∧ (1 < length (filter (λ x, x = "n1") ["n1"; "n1"; "n2"]))%nat ∧
  (1 ≤ 1)%nat ∧ (1 < 3)%nat.
Proof.
  assert (H1 : RankResolver.get_local_ranks ["n1"; "n1"; "n2"] 3 = Ok ranks3)
    by reflexivity.
  split; [exact H1|].
  exact (rank_bounds ["n1"; "n1"; "n2"] ranks3 1 1 1 "n1" H1 eq_refl eq_refl).
Defined.


(** With worker 0 dead the rendezvous raises at once and leaves the
    world as it is. *)
Lemma rendezvous_fails_fast_example :
  (∀ h0, workers (self world3_leader_dead) !! 0 = Some h0 →
         reachable world3_leader_dead h0 = false) ∧
  _setup_env_vars world3_leader_dead = (world3_leader_dead, Raise RayActorError).
Proof.
  assert (H1 : ∀ h0, workers (self world3_leader_dead) !! 0 = Some h0 →
                     reachable world3_leader_dead h0 = false).
  { intros h0 Hh0. injection Hh0 as <-. reflexivity. }
  split; [exact H1|]. exact (rendezvous_fails_fast_without_leader _ H1).
Defined.

(** With worker 1 dead the rendezvous raises after the driver and the
    live workers have got address and port. *)
Lemma rendezvous_not_rolled_back_example :
  let a0 := set_process_group true (worker "n1" 40001 0) in
  workers (self world3_dead) !! 0 = Some 0 ∧
  actors world3_dead !! 0 = Some a0 ∧
  alive a0 = true ∧
  1 ∈ workers (self world3_dead) ∧
  reachable world3_dead 1 = false ∧
  ∃ w',
    _setup_env_vars world3_dead = (w', Raise RayActorError) ∧
    getenv "MASTER_ADDR" (driver w') = Some "n1" ∧
    getenv "MASTER_PORT" (driver w') = Some (pretty 40001%N) ∧
    ∀ (h : nat) a, h ∈ [0; 1; 2] → actors world3_dead !! h = Some a →
      alive a = true →
      ∃ a', actors w' !! h = Some a' ∧
            getenv "MASTER_ADDR" (process a') = Some "n1" ∧
            getenv "MASTER_PORT" (process a') = Some (pretty 40001%N).
Proof.
  intros a0.
  assert (H1 : workers (self world3_dead) !! 0 = Some 0) by reflexivity.
  assert (H2 : actors world3_dead !! 0 = Some a0) by reflexivity.
  assert (H3 : alive a0 = true) by reflexivity.
  assert (H4 : 1 ∈ workers (self world3_dead)).
  { apply list_elem_of_lookup. exists 1. reflexivity. }
  assert (H5 : reachable world3_dead 1 = false) by reflexivity.
  split; [exact H1|]. split; [exact H2|]. split; [exact H3|].
  split; [exact H4|]. split; [exact H5|].
  exact (rendezvous_broadcast_is_not_rolled_back world3_dead 0 1 a0 H1 H2 H3 H4 H5).
Defined.

(** The rank lookup on the three-worker cluster. *)
Lemma get_local_ranks_of_reachable_workers_example :
  Forall (λ h, reachable world3 h = true) (workers (self world3)) ∧
  num_workers (self world3) = length (workers (self world3)) ∧
  ∃ node_ips g,
    get_local_ranks world3 = (world3, Ok g) ∧
    Forall2 (λ h ip, ∃ a, actors world3 !! h = Some a ∧
                          ip = node_ip_address (process a))
            (workers (self world3)) node_ips ∧
    RankResolver.get_local_ranks node_ips (length node_ips) = Ok g ∧
    length g = num_workers (self world3).
Proof.
  assert (H1 : Forall (λ h, reachable world3 h = true) (workers (self world3))).
  { repeat constructor. }
  assert (H2 : num_workers (self world3) = length (workers (self world3)))
    by reflexivity.
  split; [exact H1|]. split; [exact H2|].
  exact (get_local_ranks_of_reachable_workers world3 H1 H2).
Defined.

(** The rank lookup with worker 1 dead. *)
Lemma get_local_ranks_with_unreachable_worker_example :
  1 ∈ workers (self world3_dead) ∧
  reachable world3_dead 1 = false ∧
  get_local_ranks world3_dead = (world3_dead, Raise RayActorError).
Proof.
  assert (H1 : 1 ∈ workers (self world3_dead)).
  { apply list_elem_of_lookup. exists 1. reflexivity. }
  assert (H2 : reachable world3_dead 1 = false) by reflexivity.
  split; [exact H1|]. split; [exact H2|].
  exact (get_local_ranks_with_unreachable_worker world3_dead 1 H1 H2).
Defined.

(** Worker 1 adopts rank 1 and the entry [(1, 1)] of the table. *)
Lemma set_world_ranks_example :
  let me' := set_local_node_rank 1 1 (set__global_rank 1 remote_plugin) in
  set_world_ranks 1 remote_plugin = Ok me' ∧
  ∃ g l n,
    global_to_local remote_plugin = Some g ∧ g !! 1 = Some (Some (l, n)) ∧
    global_rank me' = 1 ∧ local_rank me' = l ∧ node_rank me' = n ∧
    distributed_sampler_kwargs me' !! "rank" = Some 1 ∧
    distributed_sampler_kwargs me' !! "num_replicas" =
      Some (num_workers remote_plugin) ∧
    (length g = num_workers remote_plugin → (1 < world_size me')%nat).
Proof.
  intros me'.
  assert (H1 : set_world_ranks 1 remote_plugin = Ok me') by reflexivity.
  split; [exact H1|].
  exact (set_world_ranks_adopts_table_entry remote_plugin me' 1 H1).
Defined.

End DemoMoreFacts.

(** ** The whole run *)

Section ExecutionMore.
Context `{Collaborators}.

(** One step of the dispatch loop. *)
Lemma dispatch_body {A} (method : nat → Method A) (ws : list nat) (i h : nat)
    (w : World) :
  ws !! i = Some h →
  (h' ← lift (getitem ws i); remote h' (execute (method i))) w =
    (set_actors (call_effect (method i) h (actors w)) w,
     Ok (call_result (method i) (actors w) h)).
Proof.
  intros Hi. erewrite bind_Ok; [|unfold lift, getitem; by rewrite Hi].
  apply (remote_unfold (method i)).
Qed.

(** The dispatch loop over the ranks [k, k + n) of distinct workers: it
    never raises on the driver, and the future of rank [i] is that of
    calling the method of rank [i] on worker [i] as it was at the start. *)
Lemma dispatch_loop_eq {A} (method : nat → Method A) (ws : list nat) :
  NoDup ws →
  ∀ (n k : nat) (w : World),
    (k + n ≤ length ws)%nat →
    for_each (λ i, h ← lift (getitem ws i); remote h (execute (method i)))
             (seq k n) w =
      (set_actors
         (foldl (λ acts i, call_effect (method i) (default 0 (ws !! i)) acts)
                (actors w) (seq k n)) w,
       Ok ((λ i, call_result (method i) (actors w) (default 0 (ws !! i)))
             <$> seq k n)).
Proof.
  intros Hnd. induction n as [|n IH]; intros k w Hle.
  - simpl. unfold mret, M_ret. by rewrite set_actors_same.
  - destruct (lookup_lt_is_Some_2 ws k) as [hk Hk]; [lia|].
    cbn [seq for_each]. unfold mbind at 1, M_bind at 1.
    rewrite (dispatch_body method ws k hk w Hk).
    unfold mbind at 1, M_bind at 1. rewrite IH by lia.
    unfold mret, M_ret. cbn [actors set_actors foldl fmap list_fmap].
    rewrite Hk. cbn [default]. rewrite set_actors_twice. do 3 f_equal.
    apply list_fmap_ext. intros j i Hj. apply lookup_seq in Hj as [-> Hj].
    destruct (lookup_lt_is_Some_2 ws (S k + j)) as [hi Hi]; [lia|].
    rewrite Hi. cbn [default]. unfold call_result, call_effect.
    rewrite list_lookup_alter_ne; [done|]. intros ->.
    pose proof (NoDup_lookup _ _ _ _ Hnd Hk Hi). lia.
Qed.

(** The actors after the dispatch loop: the worker of a rank inside the
    range has run the method of its rank, if it is alive; every other
    actor is as before. *)
Lemma dispatched_lookup {A} (method : nat → Method A) (ws : list nat) :
  NoDup ws →
  ∀ (n k : nat) (acts : list RayExecutor),
    (k + n ≤ length ws)%nat →
    ∀ (i h : nat), ws !! i = Some h →
      foldl (λ acts i, call_effect (method i) (default 0 (ws !! i)) acts)
            acts (seq k n) !! h =
        if decide (k ≤ i < k + n)%nat
        then (λ a, if alive a then (method i a).1 else a) <$> acts !! h
        else acts !! h.
Proof.
  intros Hnd. induction n as [|n IH]; intros k acts Hle i h Hi.
  - simpl. rewrite decide_False by lia. done.
  - destruct (lookup_lt_is_Some_2 ws k) as [hk Hk]; [lia|].
    cbn [seq foldl]. rewrite (IH (S k)) with (i := i) by (done || lia).
    rewrite Hk. cbn [default]. unfold call_effect.
    destruct (decide (i = k)) as [->|Hne].
    + rewrite Hk in Hi. injection Hi as ->.
      rewrite decide_False by lia. rewrite decide_True by lia.
      apply list_lookup_alter_eq.
    + assert (hk ≠ h).
      { intros ->. pose proof (NoDup_lookup _ _ _ _ Hnd Hk Hi). lia. }
      rewrite list_lookup_alter_ne by done.
      destruct (decide (S k ≤ i < S k + n)%nat);
        [rewrite decide_True by lia|rewrite decide_False by lia]; done.
Qed.

(** Futures that have all resolved to a value are awaited together. *)
Lemma resolve_all_fmap_Ok {A} (vs : list A) :
  resolve_all (Ok <$> vs) = Ok vs.
Proof. induction vs as [|v vs IH]; csimpl; [done|]. by rewrite IH. Qed.

Lemma run_stage_set_env_var_each kvs (a : RayExecutor) :
  run_stage (set_env_var_each kvs a) = run_stage a.
Proof.
  revert a. induction kvs as [|[k [v|]] rest IH]; intros a; simpl; [done|..];
    by rewrite IH.
Qed.

Lemma process_group_set_env_var_each kvs (a : RayExecutor) :
  process_group (set_env_var_each kvs a) = process_group a.
Proof.
  revert a. induction kvs as [|[k [v|]] rest IH]; intros a; simpl; [done|..];
    by rewrite IH.
Qed.

Lemma iter_run_stage (F : RayExecutor → RayExecutor) (n : nat) (a : RayExecutor) :
  (∀ a, run_stage (F a) = run_stage a) → run_stage (Nat.iter n F a) = run_stage a.
Proof.
  intros HF. induction n as [|n IH]; [done|]. by rewrite Nat.iter_succ, HF.
Qed.

Lemma reachable_apply_to_each (F : RayExecutor → RayExecutor) (hs : list nat)
    (w w' : World) (h : nat) :
  (∀ a, alive (F a) = alive a) →
  reachable (set_actors (apply_to_each F hs (actors w)) w') h = reachable w h.
Proof.
  intros HF. unfold reachable. simpl. rewrite apply_to_each_lookup.
  destruct (actors w !! h) as [a|]; simpl; [|done]. by apply iter_alive.
Qed.

Lemma execute_remote_ranked (me : RayPlugin) (module trained : LightningModule)
    (i : nat) (queue : option Queue) (a : RayExecutor) g pair results :
  global_to_local me = Some g →
  g !! i = Some (Some pair) →
  run_stage a module = Ok (results, trained) →
  execute_remote me (Some module) i queue a =
    (init_dist_connection a,
     Ok (if decide (i = 0) then Some (filled_envelope results trained) else None)).
Proof.
  intros Hg Hi Hrun. rewrite execute_remote_unfold, Hg, Hi, Hrun. done.
Qed.

(** With every worker reachable and as many workers as [num_workers], the
    rank lookup returns a table with an entry for every rank. *)
Lemma get_local_ranks_reachable_spec (w : World) :
  Forall (λ h, reachable w h = true) (workers (self w)) →
  num_workers (self w) = length (workers (self w)) →
  ∃ g,
    get_local_ranks w = (w, Ok g) ∧
    length g = num_workers (self w) ∧
    ∀ i : nat, (i < num_workers (self w))%nat → ∃ pair, g !! i = Some (Some pair).
Proof.
  intros Hall Hn. rewrite get_local_ranks_unfold.
  pose proof (resolve_all_total get_node_ip (λ a, node_ip_address (process a))
                w (workers (self w)) ltac:(done)) as Hres.
  destruct (resolve_all _) as [ips|e].
  - destruct Hres as [_ Hips]. simpl.
    assert (Hlen : length ips = num_workers (self w)).
    { rewrite Hn. symmetry. by eapply Forall2_length. }
    rewrite <- Hlen.
    destruct (get_local_ranks_spec ips) as (g & Hg & Hglen & Hent).
    exists g. rewrite Hg. split; [done|]. split; [done|].
    intros i Hi. destruct (lookup_lt_is_Some_2 ips i) as [ip Hip]; [done|].
    destruct (Hent i ip Hip) as (node & _ & Hentry). eauto.
  - destruct Hres as [_ (h & Hh & Hr)]. rewrite Forall_forall in Hall.
    specialize (Hall h Hh). congruence.
Qed.

Lemma length_dispatched {A} (method : nat → Method A) (handle_of : nat → nat)
    (l : list nat) (acts : list RayExecutor) :
  length (foldl (λ acts i, call_effect (method i) (handle_of i) acts) acts l) =
    length acts.
Proof.
  revert acts. induction l as [|i l IH]; intros acts; simpl; [done|].
  rewrite IH. unfold call_effect. apply length_alter.
Qed.

Lemma alive_init_dist_connection (a : RayExecutor) :
  alive (init_dist_connection a) = alive a.
Proof. unfold init_dist_connection. by destruct (process_group a). Qed.

(** The first part of the execution loop on a healthy pool: distinct,
    reachable workers, as many as [num_workers], a model on the driver and
    stages that succeed. *)
Lemma dispatch_spec (tune_enabled : bool) (w : World) (h0 : nat) a0
    (m trained : LightningModule) (results : Results) :
  NoDup (workers (self w)) →
  num_workers (self w) = length (workers (self w)) →
  Forall (λ h, reachable w h = true) (workers (self w)) →
  workers (self w) !! 0 = Some h0 →
  actors w !! h0 = Some a0 →
  _model (self w) = Some m →
  run_stage a0 m = Ok (results, trained) →
  (∀ (h : nat) a, h ∈ workers (self w) → actors w !! h = Some a →
                  is_Ok (run_stage a m)) →
  ∃ w3 g queue rest,
    dispatch tune_enabled w =
      (w3, Ok (Some m, queue, Some (filled_envelope results trained) :: rest)) ∧
    self w3 = set__model None (set_global_to_local (Some g) (self w)) ∧
    length g = num_workers (self w) ∧
    driver w3 = rendezvous_driver (process a0) (driver w) ∧
    length (actors w3) = length (actors w) ∧
    ∀ h : nat, h ∈ workers (self w) → ready_for_shutdown w3 h = true.
Proof.
  intros Hnd Hn Hall Hh0 Ha0 Hm Hrun0 Hrun.
  set (fenv := set_env_var_each
                 (zip rendezvous_keys (rendezvous_values (process a0) (driver w)))).
  set (acts1 := apply_to_each fenv (workers (self w)) (actors w)).
  set (w1 := set_actors acts1
               (set_driver (rendezvous_driver (process a0) (driver w)) w)).
  assert (Hsetup : _setup_env_vars w = (w1, Ok tt))
    by by apply (_setup_env_vars_spec w h0 a0).
  assert (Hall1 : Forall (λ h, reachable w1 h = true) (workers (self w1))).
  { eapply Forall_impl; [exact Hall|]. intros h Hh. cbv beta in Hh.
    unfold w1, acts1. rewrite reachable_apply_to_each; [done|].
    apply alive_set_env_var_each. }
  destruct (get_local_ranks_reachable_spec w1 Hall1 Hn) as (g & Hglr & Hglen & Hent).
  set (me2 := set__model None (set_global_to_local (Some g) (self w))).
  set (w2 := set_self me2 w1).
  set (queue := if tune_enabled && tune_session w then Some TuneQueue else None).
  set (method := λ i, execute_remote (unpickled me2) (Some m) i queue).
  (* the actor of a listed worker after the rendezvous *)
  assert (Hact : ∀ (i h : nat), workers (self w) !! i = Some h →
            ∃ a1 r t, acts1 !! h = Some a1 ∧ alive a1 = true ∧
                      run_stage a1 m = Ok (r, t) ∧
                      (i = 0 → r = results ∧ t = trained)).
  { intros i h Hi. assert (Hh : h ∈ workers (self w))
      by by eapply list_elem_of_lookup_2.
    rewrite Forall_forall in Hall. pose proof (Hall h Hh) as Hr.
    unfold reachable in Hr. destruct (actors w !! h) as [a|] eqn:Ha; [|done].
    pose proof (Hrun h a Hh Ha) as Hok.
    destruct (run_stage a m) as [[r t]|e] eqn:Hra; [|done].
    unfold acts1. rewrite apply_to_each_lookup, Ha.
    eexists _, r, t. split; [reflexivity|]. split.
    - rewrite iter_alive; [done|]. apply alive_set_env_var_each.
    - split.
      + rewrite iter_run_stage; [done|]. apply run_stage_set_env_var_each.
      + intros ->. rewrite Hh0 in Hi. injection Hi as <-.
        rewrite Ha0 in Ha. injection Ha as <-. rewrite Hrun0 in Hra.
        by injection Hra as -> ->. }
  (* the future of every rank *)
  assert (Hfut : ∀ i : nat, (i < num_workers (self w))%nat →
            ∃ v, call_result (method i) acts1 (default 0 (workers (self w) !! i)) =
                   Ok v ∧
                 (i = 0 → v = Some (filled_envelope results trained))).
  { intros i Hi. destruct (lookup_lt_is_Some_2 (workers (self w)) i) as [h Hih];
      [lia|].
    destruct (Hact i h Hih) as (a1 & r & t & Ha1 & Hal1 & Hr1 & H0).
    destruct (Hent i Hi) as [pair Hpair].
    rewrite Hih. change (default 0 (Some h)) with h.
    unfold call_result. rewrite Ha1, Hal1.
    unfold method.
    rewrite (execute_remote_ranked (unpickled me2) m t i queue a1 g pair r);
      [|done..].
    cbn [snd]. eexists. split; [reflexivity|]. intros ->.
    destruct (H0 eq_refl) as [-> ->]. done. }
  (* the results of all ranks *)
  set (G := λ i, match call_result (method i) acts1
                         (default 0 (workers (self w) !! i)) with
                 | Ok v => v
                 | Raise _ => None
                 end).
  assert (Hfuts : (λ i, call_result (method i) acts1
                          (default 0 (workers (self w) !! i)))
                    <$> seq 0 (num_workers (self w)) =
                  Ok <$> (G <$> seq 0 (num_workers (self w)))).
  { rewrite <- list_fmap_compose. apply list_fmap_ext. intros j i Hj.
    apply lookup_seq in Hj as [-> Hj]. destruct (Hfut (0 + j)%nat Hj) as (v & Hv & _).
    unfold G. cbn [compose]. by rewrite Hv. }
  assert (Hpos : ∃ n', num_workers (self w) = S n').
  { apply lookup_lt_Some in Hh0. rewrite <- Hn in Hh0.
    exists (pred (num_workers (self w))). lia. }
  destruct Hpos as [n' Hn'].
  assert (HG0 : G 0 = Some (filled_envelope results trained)).
  { destruct (Hfut 0) as (v & Hv & H0); [lia|]. unfold G. rewrite Hv. by apply H0. }
  set (acts3 := foldl (λ acts i, call_effect (method i)
                                   (default 0 (workers (self w) !! i)) acts)
                      acts1 (seq 0 (num_workers (self w)))).
  exists (set_actors acts3 w2), g, queue, (G <$> seq 1 n').
  split.
  { unfold dispatch.
    erewrite bind_Ok; [|exact Hsetup].
    erewrite bind_Ok; [|exact Hglr].
    erewrite bind_Ok; [|reflexivity].
    erewrite bind_Ok; [|reflexivity].
    cbv zeta.
    erewrite bind_Ok; [|reflexivity].
    erewrite bind_Ok; [|reflexivity].
    erewrite bind_Ok; [|reflexivity].
    unfold w1.
    cbn [self set_self set_actors set_driver _model set__model
         set_global_to_local workers num_workers tune_session driver actors].
    rewrite Hm.
    erewrite bind_Ok;
      [|apply (dispatch_loop_eq method (workers (self w)) Hnd
                 (num_workers (self w)) 0 w2); lia].
    change (actors w2) with acts1. rewrite Hfuts.
    unfold process_results, ray_get_all.
    erewrite bind_Ok; [|unfold lift; rewrite resolve_all_fmap_Ok; reflexivity].
    assert (Hrs : G <$> seq 0 (num_workers (self w)) =
                  Some (filled_envelope results trained) :: (G <$> seq 1 n')).
    { rewrite Hn'. cbn [seq]. rewrite fmap_cons, HG0. done. }
    rewrite Hrs. reflexivity. }
  split; [reflexivity|]. split; [exact Hglen|]. split; [reflexivity|].
  split.
  { cbn [actors set_actors]. unfold acts3.
    rewrite (length_dispatched method (λ i, default 0 (workers (self w) !! i))).
    apply length_apply_to_each. }
  intros h Hh. apply list_elem_of_lookup in Hh as [i Hi].
  unfold ready_for_shutdown. cbn [actors set_actors]. unfold acts3.
  rewrite (dispatched_lookup method (workers (self w)) Hnd
             (num_workers (self w)) 0 acts1 ltac:(lia) i h Hi).
  pose proof (lookup_lt_Some _ _ _ Hi) as Hlt.
  rewrite decide_True by lia.
  destruct (Hact i h Hi) as (a1 & r & t & Ha1 & Hal1 & Hr1 & _).
  destruct (Hent i ltac:(cbn; lia)) as [pair Hpair].
  rewrite Ha1. cbn [fmap option_fmap option_map]. rewrite Hal1.
  unfold method.
  rewrite (execute_remote_ranked (unpickled me2) m t i queue a1 g pair r);
    [|done..].
  cbn [fst]. by rewrite alive_init_dist_connection, Hal1,
    process_group_init_dist_connection.
Qed.

(** The restoration from a filled envelope at index 0. *)
Lemma recover_spec (m : LightningModule) (e : Envelope)
    (rest : list (option Envelope)) (w : World) :
  recover_child_process_weights (Some m) (Some e :: rest) w =
    (set_self
       (set__model (Some (restored (use_gpu (self w)) e m))
          (set__model (Some m) (set__results (Some e.1.1.1) (self w)))) w,
     Ok tt).
Proof. by destruct e as [[[r bp] ss] cm]. Qed.

(** The whole execution loop on a healthy pool. *)
Lemma execution_loop_spec (tune_enabled : bool) (w : World) (h0 : nat) a0
    (m trained : LightningModule) (results : Results) :
  NoDup (workers (self w)) →
  num_workers (self w) = length (workers (self w)) →
  Forall (λ h, reachable w h = true) (workers (self w)) →
  workers (self w) !! 0 = Some h0 →
  actors w !! h0 = Some a0 →
  _model (self w) = Some m →
  run_stage a0 m = Ok (results, trained) →
  (∀ (h : nat) a, h ∈ workers (self w) → actors w !! h = Some a →
                  is_Ok (run_stage a m)) →
  ∃ w' g,
    execution_loop tune_enabled w = (w', Ok None) ∧
    self w' =
      set__model
        (Some (restored (use_gpu (self w)) (filled_envelope results trained) m))
        (set__model (Some m)
           (set__results (Some results)
              (set__model None (set_global_to_local (Some g) (self w))))) ∧
    length g = num_workers (self w) ∧
    length (actors w') = length (actors w) ∧
    ∀ h : nat, h ∈ workers (self w) → ready_for_shutdown w' h = true.
Proof.
  intros Hnd Hn Hall Hh0 Ha0 Hm Hrun0 Hrun.
  destruct (dispatch_spec tune_enabled w h0 a0 m trained results
              Hnd Hn Hall Hh0 Ha0 Hm Hrun0 Hrun)
    as (w3 & g & queue & rest & Hd & Hself & Hglen & _ & Hlen & Hready).
  eexists _, g. split.
  { unfold execution_loop. erewrite bind_Ok; [|exact Hd]. cbv beta iota.
    erewrite bind_Ok; [|apply recover_spec]. reflexivity. }
  cbn [self set_self actors]. rewrite Hself.
  split; [reflexivity|]. split; [done|]. split; [done|].
  intros h Hh. specialize (Hready h Hh). unfold ready_for_shutdown in *.
  exact Hready.
Qed.


(** X13. On a healthy pool (distinct, reachable workers, as many as
    [num_workers], a model on the driver, stages that succeed) the
    execution loop returns; the driver then holds the results of worker
    0's stage in [_results] and its model carries the state decoded from
    the stream that worker 0 encoded; the worker list is unchanged and the
    rank table has [num_workers] entries. *)
Theorem execution_loop_restores_worker_0_state (tune_enabled : bool) (w : World)
    (h0 : nat) (a0 : RayExecutor) (m trained : LightningModule)
    (results : Results) :
  NoDup (workers (self w)) →
  num_workers (self w) = length (workers (self w)) →
  Forall (λ h, reachable w h = true) (workers (self w)) →
  workers (self w) !! 0 = Some h0 →
  actors w !! h0 = Some a0 →
  _model (self w) = Some m →
  run_stage a0 m = Ok (results, trained) →
  (∀ (h : nat) a, h ∈ workers (self w) → actors w !! h = Some a →
                  is_Ok (run_stage a m)) →
  ∃ w',
    (execution_loop tune_enabled w).1 = w' ∧
    is_Ok (execution_loop tune_enabled w).2 ∧
    _results (self w') = Some results ∧
    state_dict <$> _model (self w') =
      Some (load_state_stream (to_state_stream (state_dict trained))
                              (use_gpu (self w))) ∧
    workers (self w') = workers (self w) ∧
    (length <$> global_to_local (self w')) = Some (num_workers (self w)).
Proof.
  intros Hnd Hn Hall Hh0 Ha0 Hm Hrun0 Hrun.
  destruct (execution_loop_spec tune_enabled w h0 a0 m trained results
              Hnd Hn Hall Hh0 Ha0 Hm Hrun0 Hrun)
    as (w' & g & Hloop & Hself & Hglen & _).
  exists w'. rewrite Hloop, Hself. cbn. rewrite Hglen. done.
Qed.


(** X15. Teardown is idempotent: once [post_dispatch] has returned, a
    second [post_dispatch] returns as well and changes nothing; in
    particular teardown of an empty pool is a no-op. *)
Theorem post_dispatch_idempotent (w w1 : World) :
  post_dispatch w = (w1, Ok tt) →
  post_dispatch w1 = (w1, Ok tt).
Proof.
  unfold post_dispatch at 1. munfold.
  destruct (shutdown_all_spec (workers (self w)) w)
    as (acts' & futs & Heq & _ & _).
  rewrite Heq. destruct (resolve_all futs) as [vs|e]; unfold lift; cbv beta iota;
    [|done].
  rewrite kill_all_spec. intros [= <-]. reflexivity.
Qed.

End ExecutionMore.

(** ** Pickling, further *)

Section PickleMore.
Import Pickle.

(** X16. What pickling hands on never carries the worker handles: the
    state returned by [__getstate__] has no [workers] entry and agrees
    with the plugin on every other attribute; a plugin without a [workers]
    attribute cannot be pickled, [__getstate__] raises [KeyError]. *)
Theorem getstate_drops_exactly_workers (p : gmap string PyVal) :
  match __getstate__ p with
  | Ok d =>
      is_Some (p !! "workers") ∧ d !! "workers" = None ∧
      ∀ k, k ≠ "workers" → d !! k = p !! k
  | Raise e => p !! "workers" = None ∧ e = KeyError
  end.
Proof.
  unfold __getstate__. destruct (p !! "workers") as [ws|] eqn:Hws; [|done].
  split; [by eauto|]. split; [apply lookup_delete_eq|].
  intros k Hk. by apply lookup_delete_ne.
Qed.

(** X17. [__setstate__] on any object and any state: the [workers]
    attribute becomes the empty list even if the state carries handles,
    every other attribute of the state overwrites the object's, and the
    attributes the state does not mention are kept. *)
Theorem setstate_resets_workers_and_updates (self__dict__ d : gmap string PyVal)
    (k : string) :
  __setstate__ self__dict__ d !! k =
    if decide (k = "workers") then Some (PyList [])
    else match d !! k with
         | Some v => Some v
         | None => self__dict__ !! k
         end.
Proof.
  unfold __setstate__. case_decide as Hk.
  - subst. apply lookup_union_Some_l. apply lookup_insert_eq.
  - destruct (d !! k) as [v|] eqn:Hd.
    + apply lookup_union_Some_l. by rewrite lookup_insert_ne.
    + rewrite lookup_union_r; [done|]. by rewrite lookup_insert_ne.
Qed.

(** X18. Unpickling is stable: a plugin that came out of a round trip
    goes through another round trip unchanged. *)
Theorem roundtrip_idempotent (p q : gmap string PyVal) :
  roundtrip p = Ok q → roundtrip q = Ok q.
Proof.
  intros Hp. assert (Hq : q = <["workers" := PyList []]> p).
  { destruct (p !! "workers") as [ws|] eqn:Hws.
    - rewrite roundtrip_eq in Hp by (rewrite Hws; eauto). by injection Hp.
    - unfold roundtrip, __getstate__ in Hp. by rewrite Hws in Hp. }
  subst q. rewrite roundtrip_eq by (rewrite lookup_insert_eq; eauto).
  by rewrite insert_insert_eq.
Qed.

End PickleMore.

(** ** Setting up the pool *)

Section SetupMore.
Context `{Collaborators}.

Lemma bind_Raise {A B} (m : M A) (k : A → M B) (w w' : World) e :
  m w = (w', Raise e) → (m ≫= k) w = (w', Raise e).
Proof. intros Hm. unfold mbind, M_bind. by rewrite Hm. Qed.

(** Creating the workers one after the other appends the started actors
    and yields consecutive fresh handles. *)
Lemma create_workers_spec (started : nat → RayExecutor) (n : nat) :
  ∀ (k : nat) (w : World),
    for_each (λ i, _create_worker (started i)) (seq k n) w =
      (set_actors (actors w ++ (started <$> seq k n)) w,
       Ok (seq (length (actors w)) n)).
Proof.
  induction n as [|n IH]; intros k w.
  - simpl. unfold mret, M_ret. by rewrite app_nil_r, set_actors_same.
  - cbn [seq for_each]. unfold mbind at 1, M_bind at 1, _create_worker at 1.
    unfold mbind at 1, M_bind at 1. rewrite IH. unfold mret, M_ret.
    cbn [actors set_actors]. rewrite set_actors_twice, length_app, <- app_assoc.
    cbn [length]. rewrite Nat.add_1_r. reflexivity.
Qed.

(** [setup] without an init hook. *)
Lemma setup_no_hook (started : nat → RayExecutor) (w : World) :
  setup started None w =
    (set_self
       (set_workers (seq (length (actors w)) (num_workers (self w))) (self w))
       (set_actors (actors w ++ (started <$> seq 0 (num_workers (self w)))) w),
     Ok tt).
Proof.
  unfold setup. erewrite bind_Ok; [|reflexivity].
  erewrite bind_Ok; [|apply create_workers_spec]. reflexivity.
Qed.


(** X19. [setup] without an init hook returns; the worker list then
    holds [num_workers] distinct handles, the [i]-th of which names the
    [i]-th actor the cluster started and no actor that existed before, and
    the actors that existed before are untouched. *)
Theorem setup_creates_distinct_fresh_workers (started : nat → RayExecutor)
    (w : World) :
  (setup started None w).2 = Ok tt ∧
  length (workers (self (setup started None w).1)) = num_workers (self w) ∧
  NoDup (workers (self (setup started None w).1)) ∧
  (∀ (i h : nat), workers (self (setup started None w).1) !! i = Some h →
     actors (setup started None w).1 !! h = Some (started i) ∧
     actors w !! h = None) ∧
  (∀ (h : nat) a, actors w !! h = Some a →
     actors (setup started None w).1 !! h = Some a).
Proof.
  rewrite setup_no_hook. cbn [fst snd self set_self workers set_workers actors
                              set_actors].
  split; [done|]. split; [apply length_seq|]. split; [apply NoDup_seq|]. split.
  - intros i h Hi. apply lookup_seq in Hi as [-> Hi]. split.
    + rewrite lookup_app_r by lia.
      replace (length (actors w) + i - length (actors w))%nat with i by lia.
      rewrite list_lookup_fmap, lookup_seq_lt by done. done.
    + apply lookup_ge_None. lia.
  - intros h a Ha. by apply lookup_app_l_Some.
Qed.


(** X21. Setup followed by the rendezvous: when the cluster starts at
    least one worker and all started workers are alive, both succeed and
    the rendezvous address and port are those of the first worker
    created. *)
Theorem rendezvous_leader_is_first_created (started : nat → RayExecutor)
    (w : World) :
  (0 < num_workers (self w))%nat →
  (∀ i : nat, (i < num_workers (self w))%nat → alive (started i) = true) →
  ∃ w',
    (setup started None;; _setup_env_vars) w = (w', Ok tt) ∧
    getenv "MASTER_ADDR" (driver w') =
      Some (node_ip_address (process (started 0))) ∧
    getenv "MASTER_PORT" (driver w') =
      Some (pretty (find_free_port (process (started 0)))).
Proof.
  intros Hpos Halive. erewrite bind_Ok; [|apply setup_no_hook].
  set (w1 := set_self _ _).
  assert (Hh0 : workers (self w1) !! 0 = Some (length (actors w))).
  { cbn. rewrite lookup_seq_lt by done. f_equal. lia. }
  assert (Ha0 : actors w1 !! length (actors w) = Some (started 0)).
  { cbn. rewrite lookup_app_r by lia. rewrite Nat.sub_diag.
    rewrite list_lookup_fmap, lookup_seq_lt by done. done. }
  assert (Hall : Forall (λ h, reachable w1 h = true) (workers (self w1))).
  { apply Forall_forall. intros h Hh. cbn in Hh. apply elem_of_seq in Hh.
    unfold reachable. cbn. rewrite lookup_app_r by lia.
    rewrite list_lookup_fmap, lookup_seq_lt by lia. cbn. apply Halive. lia. }
  eexists. split;
    [by apply (_setup_env_vars_spec w1 (length (actors w)) (started 0))|].
  cbn [driver set_actors set_driver]. split.
  - unfold rendezvous_driver, getenv, putenv. simpl.
    rewrite lookup_insert_ne by done. apply lookup_insert_eq.
  - unfold rendezvous_driver, getenv, putenv. simpl. apply lookup_insert_eq.
Qed.

(** X22. A plugin with [num_workers = 0] sets up an empty pool, and its
    run then raises [IndexError] in the rendezvous, before anything else
    happens. *)
Theorem run_without_workers_raises_IndexError (started : nat → RayExecutor)
    (tune_enabled : bool) (w : World) :
  num_workers (self w) = 0 →
  (setup started None;; execution_loop tune_enabled) w =
    ((setup started None w).1, Raise IndexError) ∧
  workers (self (setup started None w).1) = [] ∧
  actors (setup started None w).1 = actors w ∧
  driver (setup started None w).1 = driver w.
Proof.
  intros Hn. rewrite setup_no_hook. cbn [fst]. rewrite Hn. cbn [seq fmap list_fmap].
  rewrite app_nil_r. split; [|done].
  erewrite bind_Ok; [|by rewrite setup_no_hook, Hn; cbn; rewrite app_nil_r].
  unfold execution_loop, dispatch.
  apply bind_Raise, bind_Raise. reflexivity.
Qed.

End SetupMore.

(** ** The whole run on the concrete cluster *)

Section DemoRunFacts.
Import Demo DemoMore.

Lemma world3_NoDup : NoDup (workers (self world3)).
Proof. apply (bool_decide_unpack _). by vm_compute. Defined.

Lemma world3_reachable :
  Forall (λ h, reachable world3 h = true) (workers (self world3)).
Proof. repeat constructor. Defined.

Lemma world3_stages :
  ∀ (h : nat) a, h ∈ workers (self world3) → actors world3 !! h = Some a →
                 is_Ok (run_stage a module0).
Proof.
  intros h a _ Ha. destruct h as [|[|[|h]]]; simpl in Ha;
    [injection Ha as <-; exact I..|discriminate].
Defined.

(** The run on the three-worker cluster: the driver ends up with the
    result [0] of worker 0 and its weights. *)
Lemma execution_loop_restores_worker_0_state_example :
  NoDup (workers (self world3)) ∧
  num_workers (self world3) = length (workers (self world3)) ∧
  Forall (λ h, reachable world3 h = true) (workers (self world3)) ∧
  workers (self world3) !! 0 = Some 0 ∧
  actors world3 !! 0 = Some (worker "n1" 40001 0) ∧
  _model (self world3) = Some module0 ∧
  run_stage (worker "n1" 40001 0) module0 = Ok (0, trained 0) ∧
  ∃ w',
    (execution_loop true world3).1 = w' ∧
    is_Ok (execution_loop true world3).2 ∧
    _results (self w') = Some 0 ∧
    state_dict <$> _model (self w') = Some [0%Z; 7%Z] ∧
    workers (self w') = [0; 1; 2] ∧
    (length <$> global_to_local (self w')) = Some 3.
Proof.
  repeat (split; [first [exact world3_NoDup | exact world3_reachable | reflexivity]|]).
  exact (execution_loop_restores_worker_0_state true world3 0
           (worker "n1" 40001 0) module0 (trained 0) 0
           world3_NoDup eq_refl world3_reachable eq_refl eq_refl eq_refl eq_refl
           world3_stages).
Defined.


(** A second teardown of the joined cluster changes nothing. *)
Lemma post_dispatch_idempotent_example :
  let w1 := (post_dispatch world3_joined).1 in
  post_dispatch world3_joined = (w1, Ok tt) ∧
  post_dispatch w1 = (w1, Ok tt).
Proof.
  intros w1.
  assert (H1 : post_dispatch world3_joined = (w1, Ok tt)) by reflexivity.
  split; [exact H1|]. exact (post_dispatch_idempotent world3_joined w1 H1).
Defined.

(** The round trip of an unpickled plugin. *)
Lemma roundtrip_idempotent_example :
  let p := <["workers" := Pickle.PyList [Pickle.PyHandle 0]]>
             (Pickle.__init__ 1 1 false Pickle.PyNone) in
  let q := <["workers" := Pickle.PyList []]> p in
  Pickle.roundtrip p = Ok q ∧ Pickle.roundtrip q = Ok q.
Proof.
  intros p q.
  assert (H1 : Pickle.roundtrip p = Ok q).
  { apply roundtrip_eq. exists (Pickle.PyList [Pickle.PyHandle 0]). reflexivity. }
  split; [exact H1|]. exact (roundtrip_idempotent p q H1).
Defined.

(** Three more workers set up on the three-worker cluster: the
    rendezvous is with the first of them, handle 3. *)
Lemma rendezvous_leader_is_first_created_example :
  let started := λ i, worker "n3" (41000 + N.of_nat i) i in
  (0 < num_workers (self world3))%nat ∧
  (∀ i : nat, (i < num_workers (self world3))%nat → alive (started i) = true) ∧
  ∃ w',
    (setup started None;; _setup_env_vars) world3 = (w', Ok tt) ∧
    getenv "MASTER_ADDR" (driver w') = Some "n3" ∧
    getenv "MASTER_PORT" (driver w') = Some (pretty (41000 + 0)%N).
Proof.
  intros started.
  assert (H1 : (0 < num_workers (self world3))%nat) by (cbn; lia).
  assert (H2 : ∀ i : nat, (i < num_workers (self world3))%nat →
                          alive (started i) = true) by (intros i _; reflexivity).
  split; [exact H1|]. split; [exact H2|].
  exact (rendezvous_leader_is_first_created started world3 H1 H2).
Defined.

(** With nobody in the pool the run raises [IndexError]. *)
Lemma run_without_workers_example :
  let started := λ i, worker "n3" 41000 i in
  num_workers (self world3_empty_pool) = 0 ∧
  (setup started None;; execution_loop true) world3_empty_pool =
    ((setup started None world3_empty_pool).1, Raise IndexError) ∧
  workers (self (setup started None world3_empty_pool).1) = [] ∧
  actors (setup started None world3_empty_pool).1 = actors world3_empty_pool ∧
  driver (setup started None world3_empty_pool).1 = driver world3_empty_pool.
Proof.
  intros started.
  assert (H1 : num_workers (self world3_empty_pool) = 0) by reflexivity.
  split; [exact H1|].
  exact (run_without_workers_raises_IndexError started true world3_empty_pool H1).
Defined.

End DemoRunFacts.

(** ** Runs that fail *)

Section FailureMore.
Context `{Collaborators}.

(** The first part of the execution loop on distinct, reachable workers,
    as many as [num_workers], with a model on the driver: the rendezvous
    and the rank lookup succeed, every worker is called, and the outcome is
    that of awaiting the workers' futures. *)
Lemma dispatch_unfold (tune_enabled : bool) (w : World) (h0 : nat) a0
    (m : LightningModule) :
  NoDup (workers (self w)) →
  num_workers (self w) = length (workers (self w)) →
  Forall (λ h, reachable w h = true) (workers (self w)) →
  workers (self w) !! 0 = Some h0 →
  actors w !! h0 = Some a0 →
  _model (self w) = Some m →
  ∃ g acts1 acts3,
    let me2 := set__model None (set_global_to_local (Some g) (self w)) in
    let queue := if tune_enabled && tune_session w then Some TuneQueue else None in
    let method := λ i, execute_remote (unpickled me2) (Some m) i queue in
    dispatch tune_enabled w =
      (set_actors acts3
         (set_self me2
            (set_driver (rendezvous_driver (process a0) (driver w)) w)),
       rs ← resolve_all
               ((λ i, call_result (method i) acts1
                        (default 0 (workers (self w) !! i)))
                  <$> seq 0 (num_workers (self w)));
       Ok (Some m, queue, rs)) ∧
    (∀ i : nat, (i < num_workers (self w))%nat →
                ∃ pair, g !! i = Some (Some pair)) ∧
    (∀ (h : nat) a, actors w !! h = Some a →
       ∃ a1, acts1 !! h = Some a1 ∧ alive a1 = alive a ∧
             run_stage a1 = run_stage a).
Proof.
  intros Hnd Hn Hall Hh0 Ha0 Hm.
  set (fenv := set_env_var_each
                 (zip rendezvous_keys (rendezvous_values (process a0) (driver w)))).
  set (acts1 := apply_to_each fenv (workers (self w)) (actors w)).
  set (w1 := set_actors acts1
               (set_driver (rendezvous_driver (process a0) (driver w)) w)).
  assert (Hsetup : _setup_env_vars w = (w1, Ok tt))
    by by apply (_setup_env_vars_spec w h0 a0).
  assert (Hall1 : Forall (λ h, reachable w1 h = true) (workers (self w1))).
  { eapply Forall_impl; [exact Hall|]. intros h Hh. cbv beta in Hh.
    unfold w1, acts1. rewrite reachable_apply_to_each; [done|].
    apply alive_set_env_var_each. }
  destruct (get_local_ranks_reachable_spec w1 Hall1 Hn) as (g & Hglr & _ & Hent).
  set (me2 := set__model None (set_global_to_local (Some g) (self w))).
  set (queue := if tune_enabled && tune_session w then Some TuneQueue else None).
  set (method := λ i, execute_remote (unpickled me2) (Some m) i queue).
  exists g, acts1,
    (foldl (λ acts i, call_effect (method i)
                        (default 0 (workers (self w) !! i)) acts)
           acts1 (seq 0 (num_workers (self w)))).
  cbv zeta. split; [|split; [exact Hent|]].
  - unfold dispatch.
    erewrite bind_Ok; [|exact Hsetup].
    erewrite bind_Ok; [|exact Hglr].
    erewrite bind_Ok; [|reflexivity].
    erewrite bind_Ok; [|reflexivity].
    cbv zeta.
    erewrite bind_Ok; [|reflexivity].
    erewrite bind_Ok; [|reflexivity].
    erewrite bind_Ok; [|reflexivity].
    unfold w1.
    cbn [self set_self set_actors set_driver _model set__model
         set_global_to_local workers num_workers tune_session driver actors].
    rewrite Hm.
    erewrite bind_Ok;
      [|apply (dispatch_loop_eq method (workers (self w)) Hnd
                 (num_workers (self w)) 0 (set_self me2 w1)); lia].
    unfold process_results, ray_get_all, lift, mbind, M_bind, mret, M_ret,
      result_bind.
    cbn [actors set_actors set_self]. fold acts1.
    by destruct (resolve_all _).
  - intros h a Ha. unfold acts1. rewrite apply_to_each_lookup, Ha.
    eexists. split; [reflexivity|]. split.
    + apply iter_alive, alive_set_env_var_each.
    + apply iter_run_stage, run_stage_set_env_var_each.
Qed.

(** X23. If the stage of worker 0 raises [e] on an otherwise sound pool
    (distinct, reachable workers, as many as [num_workers], a model on the
    driver), the execution loop raises [RayTaskError e]; the driver's
    plugin is then left without its model ([_model] is [None]) and its
    [_results] are what they were. *)
Theorem failed_stage_leaves_driver_without_model (tune_enabled : bool)
    (w : World) (h0 : nat) (a0 : RayExecutor) (m : LightningModule) (e : PyExn) :
  NoDup (workers (self w)) →
  num_workers (self w) = length (workers (self w)) →
  Forall (λ h, reachable w h = true) (workers (self w)) →
  workers (self w) !! 0 = Some h0 →
  actors w !! h0 = Some a0 →
  _model (self w) = Some m →
  run_stage a0 m = Raise e →
  (execution_loop tune_enabled w).2 = Raise (RayTaskError e) ∧
  _model (self (execution_loop tune_enabled w).1) = None ∧
  _results (self (execution_loop tune_enabled w).1) = _results (self w) ∧
  workers (self (execution_loop tune_enabled w).1) = workers (self w).
Proof.
  intros Hnd Hn Hall Hh0 Ha0 Hm Hrun.
  destruct (dispatch_unfold tune_enabled w h0 a0 m Hnd Hn Hall Hh0 Ha0 Hm)
    as (g & acts1 & acts3 & Hd & Hent & Hacts).
  cbv zeta in Hd.
  assert (Hpos : ∃ n', num_workers (self w) = S n').
  { apply lookup_lt_Some in Hh0. rewrite <- Hn in Hh0.
    exists (pred (num_workers (self w))). lia. }
  destruct Hpos as [n' Hn'].
  destruct (Hacts h0 a0 Ha0) as (a1 & Ha1 & Hal1 & Hr1).
  destruct (Hent 0 ltac:(lia)) as [pair Hpair].
  assert (Halive : alive a0 = true).
  { rewrite Forall_forall in Hall.
    pose proof (Hall h0 (list_elem_of_lookup_2 _ _ _ Hh0)) as Hr.
    unfold reachable in Hr. by rewrite Ha0 in Hr. }
  rewrite Hn' in Hd. cbn [seq] in Hd. rewrite fmap_cons in Hd.
  rewrite Hh0 in Hd. change (default 0 (Some h0)) with h0 in Hd.
  unfold call_result at 1 in Hd. rewrite Ha1, Hal1, Halive in Hd.
  rewrite execute_remote_unfold in Hd.
  cbn [global_to_local unpickled set_workers set__model set_global_to_local] in Hd.
  rewrite Hpair, Hr1, Hrun in Hd. cbn [snd resolve_all mbind result_bind] in Hd.
  unfold execution_loop. erewrite bind_Raise; [|exact Hd]. done.
Qed.

Lemma iter_process_group (F : RayExecutor → RayExecutor) (n : nat)
    (a : RayExecutor) :
  (∀ a, process_group (F a) = process_group a) →
  process_group (Nat.iter n F a) = process_group a.
Proof.
  intros HF. induction n as [|n IH]; [done|]. by rewrite Nat.iter_succ, HF.
Qed.

Lemma process_group_set_env_vars keys values (a : RayExecutor) :
  process_group (set_env_vars keys values a).1 = process_group a.
Proof.
  unfold set_env_vars. case_decide; simpl; [|done].
  apply process_group_set_env_var_each.
Qed.

(** The rendezvous with an unreachable worker in the pool: it raises
    [RayActorError], and neither the plugin nor the liveness or the
    process-group membership of any actor has changed. *)
Lemma _setup_env_vars_unreachable (w : World) (hbad : nat) :
  hbad ∈ workers (self w) → reachable w hbad = false →
  ∃ w',
    _setup_env_vars w = (w', Raise RayActorError) ∧
    self w' = self w ∧
    ∀ i : nat,
      process_group <$> actors w' !! i = process_group <$> actors w !! i ∧
      alive <$> actors w' !! i = alive <$> actors w !! i.
Proof.
  intros Hbad Hdead.
  destruct (workers (self w) !! 0) as [h0|] eqn:Hh0.
  2:{ apply lookup_ge_None in Hh0. destruct (workers (self w)); [|simpl in Hh0; lia].
      by apply elem_of_nil in Hbad. }
  destruct (reachable w h0) eqn:Hr0.
  - unfold reachable in Hr0. destruct (actors w !! h0) as [a0|] eqn:Ha0; [|done].
    eexists. split.
    { rewrite (_setup_env_vars_leader_alive w h0 a0 Hh0 Ha0 Hr0). f_equal.
      pose proof (resolve_all_total
        (set_env_vars rendezvous_keys (rendezvous_values (process a0) (driver w)))
        (λ _, tt) w (workers (self w)) ltac:(done)) as Hres.
      destruct (resolve_all _) as [vs|e].
      - destruct Hres as [Hall _]. rewrite Forall_forall in Hall.
        specialize (Hall hbad Hbad). congruence.
      - by destruct Hres as [-> _]. }
    split; [reflexivity|]. intros i. cbn [actors set_actors].
    change (foldl _ (actors w) (workers (self w)))
      with (apply_to_each
              (λ a, if alive a
                    then (set_env_vars rendezvous_keys
                            (rendezvous_values (process a0) (driver w)) a).1
                    else a)
              (workers (self w)) (actors w)).
    rewrite apply_to_each_lookup. destruct (actors w !! i) as [a|]; [|done].
    cbn [fmap option_fmap option_map]. split; f_equal.
    + apply iter_process_group. intros x. destruct (alive x); [|done].
      apply process_group_set_env_vars.
    + apply iter_alive. intros x. destruct (alive x) eqn:Hx; [|done].
      by rewrite alive_set_env_vars.
  - exists w. split; [|done]. unfold _setup_env_vars.
    erewrite bind_Ok; [|reflexivity].
    erewrite bind_Ok; [|unfold lift, getitem; by rewrite Hh0].
    unfold reachable in Hr0. unfold mbind, M_bind, remote.
    destruct (actors w !! h0) as [a|]; [|reflexivity]. by rewrite Hr0.
Qed.

(** X24. With an unreachable worker in the pool the execution loop fails
    in the rendezvous: it raises [RayActorError], the driver's plugin is
    as before (its model included), and no stage has run: no actor has
    joined or left the process group, and none has died. *)
Theorem unreachable_worker_fails_the_run_in_rendezvous (tune_enabled : bool)
    (w : World) (hbad : nat) :
  hbad ∈ workers (self w) → reachable w hbad = false →
  (execution_loop tune_enabled w).2 = Raise RayActorError ∧
  self (execution_loop tune_enabled w).1 = self w ∧
  ∀ i : nat,
    process_group <$> actors (execution_loop tune_enabled w).1 !! i =
      process_group <$> actors w !! i ∧
    alive <$> actors (execution_loop tune_enabled w).1 !! i =
      alive <$> actors w !! i.
Proof.
  intros Hbad Hdead.
  destruct (_setup_env_vars_unreachable w hbad Hbad Hdead)
    as (w' & Hsetup & Hself & Hacts).
  unfold execution_loop, dispatch.
  erewrite bind_Raise; [|erewrite bind_Raise; [reflexivity|exact Hsetup]].
  done.
Qed.

End FailureMore.

(** ** Failing runs on the concrete cluster *)

Section DemoFailureFacts.
Import Demo DemoMore.

(** The three-worker cluster with a worker 0 whose stage raises. *)
Lemma failed_stage_example :
  let a0 := {| process := process (worker "n1" 40001 0);
               alive := true;
               process_group := false;
               run_stage := λ _, Raise RuntimeError |} in
  let w := set_actors (<[0 := a0]> (actors world3)) world3 in
  NoDup (workers (self w)) ∧
  num_workers (self w) = length (workers (self w)) ∧
  Forall (λ h, reachable w h = true) (workers (self w)) ∧
  workers (self w) !! 0 = Some 0 ∧
  actors w !! 0 = Some a0 ∧
  _model (self w) = Some module0 ∧
  run_stage a0 module0 = Raise RuntimeError ∧
  (execution_loop true w).2 = Raise (RayTaskError RuntimeError) ∧
  _model (self (execution_loop true w).1) = None ∧
  _results (self (execution_loop true w).1) = _results (self w) ∧
  workers (self (execution_loop true w).1) = workers (self w).
Proof.
  intros a0 w.
  assert (H1 : NoDup (workers (self w))) by exact world3_NoDup.
  assert (H3 : Forall (λ h, reachable w h = true) (workers (self w)))
    by repeat constructor.
  do 7 (split; [first [exact H1 | exact H3 | reflexivity]|]).
  exact (failed_stage_leaves_driver_without_model true w 0 a0 module0 RuntimeError
           H1 eq_refl H3 eq_refl eq_refl eq_refl eq_refl).
Defined.

(** The run on the cluster whose worker 1 is dead. *)
Lemma unreachable_worker_example :
  1 ∈ workers (self world3_dead) ∧
  reachable world3_dead 1 = false ∧
  (execution_loop true world3_dead).2 = Raise RayActorError ∧
  self (execution_loop true world3_dead).1 = self world3_dead ∧
  ∀ i : nat,
    process_group <$> actors (execution_loop true world3_dead).1 !! i =
      process_group <$> actors world3_dead !! i ∧
    alive <$> actors (execution_loop true world3_dead).1 !! i =
      alive <$> actors world3_dead !! i.
Proof.
  assert (H1 : 1 ∈ workers (self world3_dead)).
  { apply list_elem_of_lookup. exists 1. reflexivity. }
  assert (H2 : reachable world3_dead 1 = false) by reflexivity.
  split; [exact H1|]. split; [exact H2|].
  exact (unreachable_worker_fails_the_run_in_rendezvous true world3_dead 1 H1 H2).
Defined.

End DemoFailureFacts.
